(** * FileIndexer (db/file_indexer.cc): a shallow embedding and its properties

    The indexer keeps, for every file of level [u], four offsets into the
    file list of level [u+1].  [UpdateIndex] computes them with four
    two-cursor merge passes ([CalculateLB], [CalculateRB]);
    [GetNextLevelIndex] turns the outcome of comparing a key with one file
    into a search range for the next level. *)

From stdpp Require Import base option list list_numbers.
From Stdlib Require Import ZArith Lia.

Local Open Scope Z_scope.

(** ** Machine integers *)

(** [uint32_t], [int32_t] and [size_t] values are integers of [Z]; the
    conversions between them wrap around as the C++ ones do. *)
Definition to_uint32 (z : Z) : Z := z `mod` 2 ^ 32.
Definition to_int32 (z : Z) : Z := (z + 2 ^ 31) `mod` 2 ^ 32 - 2 ^ 31.
Definition to_size_t (z : Z) : Z := z `mod` 2 ^ 64.

(** ** Vectors *)

(** A [std::vector] is a list.  [operator[]] outside the vector is
    undefined behaviour: the model has no result ([None]) there. *)
Definition vec_size {A} (v : list A) : Z := Z.of_nat (length v).

Definition vec_at {A} (v : list A) (i : Z) : option A :=
  if i <? 0 then None else v !! Z.to_nat i.

Definition vec_update {A} (v : list A) (i : Z) (f : A → A) : option (list A) :=
  x ← vec_at v i; Some (<[Z.to_nat i := f x]> v).

Definition vec_store {A} (v : list A) (i : Z) (x : A) : option (list A) :=
  vec_update v i (λ _, x).

(** [assert(b)]: a failed assertion ends the run without a result. *)
Definition assert_ (b : bool) : option unit := if b then Some () else None.

(** ** Loops *)

(** [while (cond) body], bounded by [fuel] iterations; out of fuel there is
    no result.  Every use below comes with a proof that its fuel is enough. *)
Fixpoint while {St} (fuel : nat) (cond : St → bool) (body : St → option St)
    (s : St) : option St :=
  match fuel with
  | O => None
  | S fuel' =>
      if cond s then s' ← body s; while fuel' cond body s' else Some s
  end.

(** [for (level = lo; level < hi; ++level) body] over a state [St]; the body
    does not change [level] and [hi] is fixed before the loop. *)
Definition for_levels {St} (lo hi : Z) (body : Z → St → option St) (s : St)
    : option St :=
  foldl (λ acc level, acc ≫= body level) (Some s) (seqZ lo (hi - lo)).

(** ** The comparator *)

(** [Comparator::Compare]: negative, zero or positive. *)
Class Comparator (K : Type) := Compare : K → K → Z.

(** What the indexer relies on: [Compare] is a total preorder on keys. *)
Class ComparatorLaws (K : Type) `{Comparator K} : Prop := {
  compare_flip : ∀ a b : K, Compare a b < 0 ↔ 0 < Compare b a;
  compare_trans : ∀ a b c : K,
    Compare a b ≤ 0 → Compare b c ≤ 0 → Compare a c ≤ 0
}.

(** Integer keys in their usual order, as BytewiseComparator orders byte
    strings. *)
Definition Z_Compare (a b : Z) : Z :=
  match a ?= b with Lt => -1 | Eq => 0 | Gt => 1 end.

(** ** Data *)

(** The four offsets of one file into the next level. *)
Record IndexUnit := mkIndexUnit {
  smallest_lb : Z;
  largest_lb : Z;
  smallest_rb : Z;
  largest_rb : Z
}.

(** The assignments done by the four callbacks of [UpdateIndex]. *)
Definition set_smallest_lb (index : IndexUnit) (f_idx : Z) : IndexUnit :=
  mkIndexUnit f_idx (largest_lb index) (smallest_rb index) (largest_rb index).
Definition set_largest_lb (index : IndexUnit) (f_idx : Z) : IndexUnit :=
  mkIndexUnit (smallest_lb index) f_idx (smallest_rb index) (largest_rb index).
Definition set_smallest_rb (index : IndexUnit) (f_idx : Z) : IndexUnit :=
  mkIndexUnit (smallest_lb index) (largest_lb index) f_idx (largest_rb index).
Definition set_largest_rb (index : IndexUnit) (f_idx : Z) : IndexUnit :=
  mkIndexUnit (smallest_lb index) (largest_lb index) (smallest_rb index) f_idx.

(** The object: [num_levels_], [next_level_index_] and [level_rb_]
    ([ucmp_] is the [Comparator] instance). *)
Record FileIndexer := mkFileIndexer {
  num_levels_ : Z;
  next_level_index_ : list (list IndexUnit);
  level_rb_ : list Z
}.

Definition with_next_level_index (fi : FileIndexer)
    (v : list (list IndexUnit)) : FileIndexer :=
  mkFileIndexer (num_levels_ fi) v (level_rb_ fi).
Definition with_level_rb (fi : FileIndexer) (v : list Z) : FileIndexer :=
  mkFileIndexer (num_levels_ fi) (next_level_index_ fi) v.

(** The constructor: one empty hint vector and the bound [-1] per level. *)
Definition FileIndexer_new (num_levels : Z) : FileIndexer :=
  mkFileIndexer num_levels
    (replicate (Z.to_nat num_levels) [])
    (replicate (Z.to_nat num_levels) (-1)).

Definition NumLevelIndex (fi : FileIndexer) : Z :=
  to_uint32 (vec_size (next_level_index_ fi)).

Definition LevelIndexSize (fi : FileIndexer) (level : Z) : option Z :=
  index ← vec_at (next_level_index_ fi) level;
  Some (to_uint32 (vec_size index)).

(** ** GetNextLevelIndex *)

(** The result is the pair written to [*left_bound] and [*right_bound].
    [level] and [file_index] are [uint32_t], the two comparison results
    are [int]. *)
Definition GetNextLevelIndex (fi : FileIndexer) (level file_index : Z)
    (cmp_smallest cmp_largest : Z) : option (Z * Z) :=
  assert_ (0 <? level);;
  if level =? to_uint32 (num_levels_ fi - 1) then Some (0, -1)
  else
    assert_ (level <? to_uint32 (num_levels_ fi - 1));;
    rb ← vec_at (level_rb_ fi) level;
    assert_ (to_int32 file_index <=? rb);;
    level_index ← vec_at (next_level_index_ fi) level;
    index ← vec_at level_index file_index;
    '(left_bound, right_bound) ← (
      if cmp_smallest <? 0 then
        left_bound ← (if (0 <? level) && (0 <? file_index)
                      then largest_lb <$> vec_at level_index (file_index - 1)
                      else Some 0);
        Some (left_bound, smallest_rb index)
      else if cmp_smallest =? 0 then
        Some (smallest_lb index, smallest_rb index)
      else if (0 <? cmp_smallest) && (cmp_largest <? 0) then
        Some (smallest_lb index, largest_rb index)
      else if cmp_largest =? 0 then
        Some (largest_lb index, largest_rb index)
      else if 0 <? cmp_largest then
        right_bound ← vec_at (level_rb_ fi) (level + 1);
        Some (largest_lb index, right_bound)
      else None);
    next_rb ← vec_at (level_rb_ fi) (level + 1);
    assert_ (0 <=? left_bound);;
    assert_ (left_bound <=? right_bound + 1);;
    assert_ (right_bound <=? next_rb);;
    Some (left_bound, right_bound).

(** ** ClearIndex *)

Definition ClearIndex (fi : FileIndexer) : option FileIndexer :=
  for_levels 1 (num_levels_ fi)
    (λ level fi,
       v ← vec_store (next_level_index_ fi) level [];
       Some (with_next_level_index fi v))
    fi.

(** ** The merge passes *)

Section Passes.
Context {FileMetaData : Type}.
Implicit Types (upper_files lower_files : list FileMetaData).
Implicit Types (index : list IndexUnit).

Definition pass_fuel upper_files lower_files : nat :=
  S (length upper_files + length lower_files).

Definition CalculateLB upper_files lower_files index
    (cmp_op : FileMetaData → FileMetaData → Z)
    (set_index : IndexUnit → Z → IndexUnit) : option (list IndexUnit) :=
  let upper_size := to_int32 (vec_size upper_files) in
  let lower_size := to_int32 (vec_size lower_files) in
  '(upper_idx, lower_idx, index) ←
    while (pass_fuel upper_files lower_files)
      (λ '(upper_idx, lower_idx, _),
         (upper_idx <? upper_size) && (lower_idx <? lower_size))
      (λ '(upper_idx, lower_idx, index),
         u ← vec_at upper_files upper_idx;
         l ← vec_at lower_files lower_idx;
         let cmp := cmp_op u l in
         if cmp =? 0 then
           index ← vec_update index upper_idx (λ x, set_index x lower_idx);
           Some (upper_idx + 1, lower_idx + 1, index)
         else if 0 <? cmp then
           Some (upper_idx, lower_idx + 1, index)
         else
           index ← vec_update index upper_idx (λ x, set_index x lower_idx);
           Some (upper_idx + 1, lower_idx, index))
      (0, 0, index);
  '(_, index) ←
    while (pass_fuel upper_files lower_files)
      (λ '(upper_idx, _), upper_idx <? upper_size)
      (λ '(upper_idx, index),
         index ← vec_update index upper_idx (λ x, set_index x lower_size);
         Some (upper_idx + 1, index))
      (upper_idx, index);
  Some index.

Definition CalculateRB upper_files lower_files index
    (cmp_op : FileMetaData → FileMetaData → Z)
    (set_index : IndexUnit → Z → IndexUnit) : option (list IndexUnit) :=
  let upper_size := to_int32 (vec_size upper_files) in
  let lower_size := to_int32 (vec_size lower_files) in
  '(upper_idx, lower_idx, index) ←
    while (pass_fuel upper_files lower_files)
      (λ '(upper_idx, lower_idx, _),
         (0 <=? upper_idx) && (0 <=? lower_idx))
      (λ '(upper_idx, lower_idx, index),
         u ← vec_at upper_files upper_idx;
         l ← vec_at lower_files lower_idx;
         let cmp := cmp_op u l in
         if cmp =? 0 then
           index ← vec_update index upper_idx (λ x, set_index x lower_idx);
           Some (upper_idx - 1, lower_idx - 1, index)
         else if cmp <? 0 then
           Some (upper_idx, lower_idx - 1, index)
         else
           index ← vec_update index upper_idx (λ x, set_index x lower_idx);
           Some (upper_idx - 1, lower_idx, index))
      (upper_size - 1, lower_size - 1, index);
  '(_, index) ←
    while (pass_fuel upper_files lower_files)
      (λ '(upper_idx, _), 0 <=? upper_idx)
      (λ '(upper_idx, index),
         index ← vec_update index upper_idx (λ x, set_index x (-1));
         Some (upper_idx - 1, index))
      (upper_idx, index);
  Some index.
End Passes.

(** ** UpdateIndex *)

(** [FileMetaData], as far as the indexer reads it: the user keys of
    [smallest] and [largest]. *)
Record FileMetaData (K : Type) := mkFile {
  smallest : K;
  largest : K
}.
Arguments mkFile {K} _ _.
Arguments smallest {K} _.
Arguments largest {K} _.

Section Build.
Context {K : Type} `{Comparator K}.

(** The value of a default-constructed [IndexUnit], with which
    [resize] fills new slots.  The constructor is declared in
    db/file_indexer.h; every result below holds for any value of it. *)
Variable default_unit : IndexUnit.

(** The four comparisons passed to the merge passes. *)
Definition cmp_smallest_largest (a b : FileMetaData K) : Z :=
  Compare (smallest a) (largest b).
Definition cmp_largest_largest (a b : FileMetaData K) : Z :=
  Compare (largest a) (largest b).
Definition cmp_smallest_smallest (a b : FileMetaData K) : Z :=
  Compare (smallest a) (smallest b).
Definition cmp_largest_smallest (a b : FileMetaData K) : Z :=
  Compare (largest a) (smallest b).

(** One iteration of the loop over levels. *)
Definition UpdateIndex_level (files : list (list (FileMetaData K)))
    (level : Z) (fi : FileIndexer) : option FileIndexer :=
  upper_files ← vec_at files level;
  let upper_size := to_int32 (vec_size upper_files) in
  lower_files ← vec_at files (level + 1);
  rb ← vec_store (level_rb_ fi) level
         (to_int32 (to_size_t (vec_size upper_files - 1)));
  let fi := with_level_rb fi rb in
  if upper_size =? 0 then Some fi
  else
    index ← vec_at (next_level_index_ fi) level;
    let index :=
      resize (Z.to_nat (to_size_t upper_size)) default_unit index in
    index ← CalculateLB upper_files lower_files index
              cmp_smallest_largest set_smallest_lb;
    index ← CalculateLB upper_files lower_files index
              cmp_largest_largest set_largest_lb;
    index ← CalculateRB upper_files lower_files index
              cmp_smallest_smallest set_smallest_rb;
    index ← CalculateRB upper_files lower_files index
              cmp_largest_smallest set_largest_rb;
    v ← vec_store (next_level_index_ fi) level index;
    Some (with_next_level_index fi v).

(** [files] is the array of per-level file vectors, [None] for
    [nullptr]. *)
Definition UpdateIndex (fi : FileIndexer)
    (files : option (list (list (FileMetaData K)))) : option FileIndexer :=
  match files with
  | None => Some fi
  | Some files =>
      let last := to_uint32 (num_levels_ fi - 1) in
      fi ← for_levels 1 last (UpdateIndex_level files) fi;
      last_files ← vec_at files last;
      rb ← vec_store (level_rb_ fi) last
             (to_int32 (to_size_t (vec_size last_files - 1)));
      Some (with_level_rb fi rb)
  end.
End Build.

(** ** Integer keys *)

#[export] Instance Z_Comparator : Comparator Z := Z_Compare.

(** A default record for the examples.  The real one is declared in
    db/file_indexer.h; no result below depends on its value. *)
Definition zero_unit : IndexUnit := mkIndexUnit 0 0 (-1) (-1).

(** ** What the passes compute *)

(** The values assigned by one forward pass, in the order of the upper
    files, as positions in the lower list.  [p] is the position of the head
    of [ls].  The function follows the two cursors of [CalculateLB]; the
    run lemmas below show that the loops assign exactly these values. *)
Fixpoint scan {F} (cmp_op : F → F → Z) (us ls : list F) (p : nat)
    {struct us} : list nat :=
  match us with
  | [] => []
  | u :: us' =>
      (fix scan_lower (ls : list F) (p : nat) {struct ls} : list nat :=
         match ls with
         | [] => p :: scan cmp_op us' [] p
         | l :: ls' =>
             if cmp_op u l =? 0 then p :: scan cmp_op us' ls' (S p)
             else if 0 <? cmp_op u l then scan_lower ls' (S p)
             else p :: scan cmp_op us' ls p
         end) ls p
  end.

Definition LB_vals {F} (cmp_op : F → F → Z) (upper lower : list F) : list Z :=
  Z.of_nat <$> scan cmp_op upper lower 0.

(** The backward pass is the forward pass on the reversed lists with the
    comparison negated; position [p] from the end is index [size - 1 - p]. *)
Definition from_end {F} (lower : list F) (p : nat) : Z :=
  vec_size lower - 1 - Z.of_nat p.

Definition RB_vals {F} (cmp_op : F → F → Z) (upper lower : list F) : list Z :=
  reverse (from_end lower <$>
           scan (λ a b, - cmp_op a b) (reverse upper) (reverse lower) 0).

(** [p] is the first position of [ls] whose element satisfies [P], or the
    length of [ls] when there is none. *)
Definition first_pos {F} (P : F → Prop) (ls : list F) (p : nat) : Prop :=
  (p ≤ length ls)%nat ∧
  (∀ q l, ls !! q = Some l → (q < p)%nat → ¬ P l) ∧
  (∀ l, ls !! p = Some l → P l).

(** [u'] comes after [u]: whatever [u] has reached or passed, [u'] has
    passed. *)
Definition passes {F} (cmp_op : F → F → Z) (u u' : F) : Prop :=
  ∀ l, 0 ≤ cmp_op u l → 0 < cmp_op u' l.

Definition ascending {F} (cmp_op : F → F → Z) (us : list F) : Prop :=
  ∀ i i' u u', us !! i = Some u → us !! i' = Some u' → (i < i')%nat →
    passes cmp_op u u'.

Section Spec.
Context {K : Type} `{Comparator K}.

Definition key_le (a b : K) : Prop := Compare a b ≤ 0.
Definition key_lt (a b : K) : Prop := Compare a b < 0.

(** A level is sorted and non-overlapping: every file has
    [smallest <= largest] and ends before the next one starts. *)
Fixpoint files_sorted (fs : list (FileMetaData K)) : bool :=
  match fs with
  | [] => true
  | f :: rest =>
      (Compare (smallest f) (largest f) <=? 0)
      && match rest with
         | [] => true
         | g :: _ => Compare (largest f) (smallest g) <? 0
         end
      && files_sorted rest
  end.

(** Levels [1 .. L-1] are sorted; level 0 is not constrained. *)
Definition levels_sorted (files : list (list (FileMetaData K))) : bool :=
  forallb files_sorted (drop 1 files).

(** Every level's file count is an [int32_t]. *)
Definition sizes_fit (files : list (list (FileMetaData K))) : bool :=
  forallb (λ fs, vec_size fs <? 2 ^ 31) files.

(** [v] is the smallest index [j] of [lower] with
    [key <= lower[j].largest], or the size of [lower] when there is none. *)
Definition is_lb (key : K) (lower : list (FileMetaData K)) (v : Z) : Prop :=
  0 ≤ v ≤ vec_size lower ∧
  (∀ j g, vec_at lower j = Some g → j < v → ¬ key_le key (largest g)) ∧
  (∀ g, vec_at lower v = Some g → key_le key (largest g)).

(** [v] is the largest index [j] of [lower] with
    [lower[j].smallest <= key], or [-1] when there is none. *)
Definition is_rb (key : K) (lower : list (FileMetaData K)) (v : Z) : Prop :=
  -1 ≤ v < vec_size lower ∧
  (∀ j g, vec_at lower j = Some g → v < j → ¬ key_le (smallest g) key) ∧
  (∀ g, vec_at lower v = Some g → key_le (smallest g) key).

(** The keys [ku] of the upper files grow strictly. *)
Definition key_ascending (ku : FileMetaData K → K)
    (upper : list (FileMetaData K)) : Prop :=
  ∀ i i' u u', upper !! i = Some u → upper !! i' = Some u' → (i < i')%nat →
    key_lt (ku u) (ku u').

(** The hint records of one level, from the values of the four passes. *)
Definition level_hints (upper lower : list (FileMetaData K))
    : list IndexUnit :=
  (λ i, mkIndexUnit
          (LB_vals cmp_smallest_largest upper lower !!! i)
          (LB_vals cmp_largest_largest upper lower !!! i)
          (RB_vals cmp_smallest_smallest upper lower !!! i)
          (RB_vals cmp_largest_smallest upper lower !!! i))
  <$> seq 0 (length upper).
End Spec.

(** The object as the constructor leaves it and every operation keeps it:
    both vectors have [num_levels_] entries. *)
Definition wf (fi : FileIndexer) : Prop :=
  0 ≤ num_levels_ fi < 2 ^ 32 ∧
  vec_size (next_level_index_ fi) = num_levels_ fi ∧
  vec_size (level_rb_ fi) = num_levels_ fi.

(** What a build on [files] leaves in the object [fi']: the bound of every
    level from 1 on, the hint records of every indexed level that has
    files, and the old hint vector everywhere else. *)
Definition built {K} `{Comparator K} (fi : FileIndexer)
    (files : list (list (FileMetaData K))) (fi' : FileIndexer) : Prop :=
  num_levels_ fi' = num_levels_ fi ∧ wf fi' ∧
  (∀ u fs, 1 ≤ u → vec_at files u = Some fs →
     vec_at (level_rb_ fi') u = Some (vec_size fs - 1)) ∧
  (∀ u upper lower, 1 ≤ u ≤ num_levels_ fi - 2 →
     vec_at files u = Some upper → vec_at files (u + 1) = Some lower →
     upper ≠ [] →
     vec_at (next_level_index_ fi') u = Some (level_hints upper lower)) ∧
  (∀ u, u < 1 ∨ num_levels_ fi - 2 < u ∨ vec_at files u = Some [] →
     vec_at (next_level_index_ fi') u = vec_at (next_level_index_ fi) u).

(** The object is well formed, there is one file list per level, and the
    file counts are [int32_t] values. *)
Definition build_ready {K} (fi : FileIndexer)
    (files : list (list (FileMetaData K))) : Prop :=
  wf fi ∧ 1 ≤ num_levels_ fi ∧ vec_size files = num_levels_ fi ∧
  sizes_fit files = true.

(** ** Examples *)

Definition ex_files : list (list (FileMetaData Z)) :=
  [ [];
    [mkFile 10 20; mkFile 30 40];
    [mkFile 5 15; mkFile 18 25; mkFile 35 45] ].

Definition ex_built : option FileIndexer :=
  UpdateIndex zero_unit (FileIndexer_new 3) (Some ex_files).

(** A level-1 file above every file of level 2. *)
Definition above_files : list (list (FileMetaData Z)) :=
  [ []; [mkFile 10 20]; [mkFile 5 15] ].

(** Level 1 is empty. *)
Definition gap_files : list (list (FileMetaData Z)) :=
  [ []; []; [mkFile 5 15] ].

Definition no_files : list (list (FileMetaData Z)) := [ []; []; [] ].

(** The object after a build on [ex_files]. *)
Definition ex_indexer : FileIndexer :=
  mkFileIndexer 3
    [ []; [mkIndexUnit 0 1 0 1; mkIndexUnit 2 2 1 2]; [] ]
    [ -1; 1; 2 ].

(** The object after a build on [above_files]. *)
Definition above_indexer : FileIndexer :=
  mkFileIndexer 3 [ []; [mkIndexUnit 0 1 0 0]; [] ] [ -1; 0; 0 ].

(** Level 0 holds a file, and two files of level 1 stand over an empty
    level 2. *)
Definition top_files : list (list (FileMetaData Z)) :=
  [ [mkFile 1 9]; [mkFile 10 20; mkFile 30 40]; [] ].

(** Level 1 is not sorted. *)
Definition mixed_files : list (list (FileMetaData Z)) :=
  [ []; [mkFile 30 40; mkFile 10 20]; [mkFile 5 15; mkFile 18 25] ].

(** * Proofs *)

Arguments while : simpl never.
Arguments scan : simpl never.

Ltac by_compute :=
  vm_compute; first [reflexivity | congruence | intro; congruence].

(** ** Integers and vectors *)

Lemma to_int32_small z : - 2 ^ 31 ≤ z < 2 ^ 31 → to_int32 z = z.
Proof. intros Hz. unfold to_int32. rewrite Z.mod_small; lia. Qed.

Lemma to_uint32_small z : 0 ≤ z < 2 ^ 32 → to_uint32 z = z.
Proof. intros Hz. unfold to_uint32. apply Z.mod_small; lia. Qed.

Lemma to_size_t_small z : 0 ≤ z < 2 ^ 64 → to_size_t z = z.
Proof. intros Hz. unfold to_size_t. apply Z.mod_small; lia. Qed.

Lemma size_minus_one z :
  0 ≤ z < 2 ^ 31 → to_int32 (to_size_t (z - 1)) = z - 1.
Proof.
  intros Hz. destruct (decide (z = 0)) as [->|Hne].
  - reflexivity.
  - rewrite to_size_t_small by lia. apply to_int32_small. lia.
Qed.

Lemma vec_at_nat {A} (v : list A) (i : nat) : vec_at v (Z.of_nat i) = v !! i.
Proof.
  unfold vec_at. destruct (Z.ltb_spec (Z.of_nat i) 0); [lia|].
  by rewrite Nat2Z.id.
Qed.

Lemma vec_at_Some {A} (v : list A) (i : Z) x :
  vec_at v i = Some x ↔ 0 ≤ i ∧ v !! Z.to_nat i = Some x.
Proof.
  unfold vec_at. destruct (Z.ltb_spec i 0).
  - split; [done|lia].
  - split; [by split|by intros [_ ?]].
Qed.

Lemma vec_at_lt {A} (v : list A) (i : Z) x :
  vec_at v i = Some x → 0 ≤ i < vec_size v.
Proof.
  rewrite vec_at_Some. intros [Hi Hx]. apply lookup_lt_Some in Hx.
  unfold vec_size. lia.
Qed.

Lemma vec_at_is_Some {A} (v : list A) (i : Z) :
  0 ≤ i < vec_size v → ∃ x, vec_at v i = Some x.
Proof.
  unfold vec_size. intros Hi.
  destruct (lookup_lt_is_Some_2 v (Z.to_nat i)) as [x Hx]; [lia|].
  exists x. apply vec_at_Some. split; [lia|done].
Qed.

Lemma vec_update_nat {A} (v : list A) (i : nat) (f : A → A) x :
  v !! i = Some x → vec_update v (Z.of_nat i) f = Some (<[i := f x]> v).
Proof.
  intros Hx. unfold vec_update. rewrite vec_at_nat, Hx. simpl.
  by rewrite Nat2Z.id.
Qed.

(** ** Loop rules *)

(** A loop started in a state of the invariant, with more fuel than its
    measure, ends in a state of the invariant where the condition fails. *)
Lemma while_rule {St} (Inv : St → Prop) (measure : St → nat)
    (cond : St → bool) (body : St → option St) :
  (∀ s, Inv s → cond s = true →
        ∃ s', body s = Some s' ∧ Inv s' ∧ (measure s' < measure s)%nat) →
  ∀ fuel s, Inv s → (measure s < fuel)%nat →
    ∃ s', while fuel cond body s = Some s' ∧ Inv s' ∧ cond s' = false.
Proof.
  intros Hstep fuel. induction fuel as [|fuel IH]; intros s Hinv Hfuel.
  - lia.
  - change (while (S fuel) cond body s)
      with (if cond s then s' ← body s; while fuel cond body s' else Some s).
    destruct (cond s) eqn:Hc.
    + destruct (Hstep s Hinv Hc) as (s' & -> & Hinv' & Hlt). simpl.
      apply IH; [done|lia].
    + by exists s.
Qed.

Lemma for_levels_rule {St} (Inv : Z → St → Prop) (lo hi : Z)
    (body : Z → St → option St) (s : St) :
  lo ≤ hi → Inv lo s →
  (∀ l s, lo ≤ l < hi → Inv l s → ∃ s', body l s = Some s' ∧ Inv (l + 1) s') →
  ∃ s', for_levels lo hi body s = Some s' ∧ Inv hi s'.
Proof.
  intros Hle Hinv Hstep. unfold for_levels.
  assert (Hgen : ∀ n : nat, lo + Z.of_nat n ≤ hi →
    ∃ s', foldl (λ acc level, acc ≫= body level) (Some s)
            (seqZ lo (Z.of_nat n)) = Some s' ∧ Inv (lo + Z.of_nat n) s').
  { induction n as [|n IH]; intros Hn.
    - exists s. simpl. by rewrite Z.add_0_r.
    - rewrite seqZ_S, foldl_app. simpl.
      destruct IH as (s1 & -> & H1); [lia|]. simpl.
      destruct (Hstep (lo + Z.of_nat n) s1) as (s2 & -> & H2); [lia|done|].
      exists s2. split; [done|].
      by replace (lo + Z.of_nat (S n)) with (lo + Z.of_nat n + 1) by lia. }
  destruct (Hgen (Z.to_nat (hi - lo))) as (s' & Hs' & Hinv'); [lia|].
  rewrite Z2Nat.id in Hs', Hinv' by lia.
  exists s'. split; [done|]. by replace hi with (lo + (hi - lo)) by lia.
Qed.

Lemma for_levels_empty {St} (lo hi : Z) (body : Z → St → option St) (s : St) :
  hi ≤ lo → for_levels lo hi body s = Some s.
Proof.
  intros Hle. unfold for_levels.
  replace (seqZ lo (hi - lo)) with (@nil Z); [done|].
  symmetry. apply seqZ_nil. lia.
Qed.

(** ** The passes assign the values of [scan] *)

Lemma scan_nil_r {F} (cmp_op : F → F → Z) u us p :
  scan cmp_op (u :: us) [] p = p :: scan cmp_op us [] p.
Proof. reflexivity. Qed.

Lemma scan_cons {F} (cmp_op : F → F → Z) u us l ls p :
  scan cmp_op (u :: us) (l :: ls) p =
    if cmp_op u l =? 0 then p :: scan cmp_op us ls (S p)
    else if 0 <? cmp_op u l then scan cmp_op (u :: us) ls (S p)
    else p :: scan cmp_op us (l :: ls) p.
Proof. reflexivity. Qed.

Lemma scan_length {F} (cmp_op : F → F → Z) us ls p :
  length (scan cmp_op us ls p) = length us.
Proof.
  revert ls p. induction us as [|u us IHus]; intros ls p; [done|].
  revert p. induction ls as [|l ls IHls]; intros p.
  - rewrite scan_nil_r. simpl. by rewrite IHus.
  - rewrite scan_cons. destruct (cmp_op u l =? 0); [simpl; by rewrite IHus|].
    destruct (0 <? cmp_op u l); [apply IHls|simpl; by rewrite IHus].
Qed.

Lemma LB_vals_length {F} (cmp_op : F → F → Z) upper lower :
  length (LB_vals cmp_op upper lower) = length upper.
Proof. unfold LB_vals. by rewrite length_fmap, scan_length. Qed.

Lemma RB_vals_length {F} (cmp_op : F → F → Z) upper lower :
  length (RB_vals cmp_op upper lower) = length upper.
Proof.
  unfold RB_vals.
  by rewrite length_reverse, length_fmap, scan_length, length_reverse.
Qed.

(** The vector after [i] assignments from the front. *)
Lemma prefix_lookup {A B} (f : A → B → A) (index : list A) (pre : list B) i :
  length pre = i → (i ≤ length index)%nat →
  (zip_with f (take i index) pre ++ drop i index) !! i = index !! i.
Proof.
  intros Hpre Hi.
  rewrite lookup_app_r; rewrite length_zip_with, length_take; [|lia].
  rewrite lookup_drop. f_equal. lia.
Qed.

Lemma prefix_step {A B} (f : A → B → A) (index : list A) (pre : list B) i x v :
  index !! i = Some x → length pre = i →
  <[i := f x v]> (zip_with f (take i index) pre ++ drop i index)
  = zip_with f (take (S i) index) (pre ++ [v]) ++ drop (S i) index.
Proof.
  intros Hx Hpre. pose proof (lookup_lt_Some _ _ _ Hx) as Hlt.
  rewrite (take_S_r _ _ _ Hx), (drop_S _ _ _ Hx).
  rewrite zip_with_app by (rewrite length_take; lia).
  rewrite insert_app_r_alt; rewrite length_zip_with, length_take; [|lia].
  replace (i - (i `min` length index) `min` length pre)%nat with 0%nat by lia.
  simpl. by rewrite <- app_assoc.
Qed.

(** The vector after assignments to the slots from [r] on. *)
Lemma suffix_lookup {A B} (f : A → B → A) (index : list A) (suf : list B) r i :
  (i < r)%nat →
  (take r index ++ zip_with f (drop r index) suf) !! i = index !! i.
Proof.
  intros Hi. destruct (decide (i < length index)%nat).
  - rewrite lookup_app_l by (rewrite length_take; lia).
    by rewrite lookup_take_lt.
  - rewrite (lookup_ge_None_2 index) by lia.
    apply lookup_ge_None_2. rewrite length_app, length_zip_with, length_take, length_drop. lia.
Qed.

Lemma suffix_step {A B} (f : A → B → A) (index : list A) (suf : list B) r x v :
  index !! r = Some x →
  <[r := f x v]> (take (S r) index ++ zip_with f (drop (S r) index) suf)
  = take r index ++ zip_with f (drop r index) (v :: suf).
Proof.
  intros Hx. pose proof (lookup_lt_Some _ _ _ Hx) as Hlt.
  rewrite (take_S_r _ _ _ Hx), (drop_S _ _ _ Hx). simpl.
  rewrite <- app_assoc. simpl.
  rewrite insert_app_r_alt; rewrite length_take; [|lia].
  by replace (r - (r `min` length index))%nat with 0%nat by lia.
Qed.

Section PassRuns.
Context {F : Type}.
Implicit Types (upper lower : list F) (index : list IndexUnit).
Implicit Types (cmp_op : F → F → Z) (set_index : IndexUnit → Z → IndexUnit).

(** A forward pass applies [set_index] once to every slot, with the values
    of [LB_vals], whatever the vector held before. *)
Lemma CalculateLB_run upper lower index cmp_op set_index :
  vec_size upper < 2 ^ 31 → vec_size lower < 2 ^ 31 →
  length index = length upper →
  CalculateLB upper lower index cmp_op set_index
  = Some (zip_with set_index index (LB_vals cmp_op upper lower)).
Proof.
  intros Hn Hm Hlen. unfold CalculateLB, vec_size in *.
  rewrite !to_int32_small by lia.
  set (n := length upper) in *. set (m := length lower) in *.
  pose (shape := λ (i : nat) (pre : list Z) (idx : list IndexUnit),
    (i ≤ n)%nat ∧ length pre = i ∧
    idx = zip_with set_index (take i index) pre ++ drop i index).
  (* the two-cursor loop *)
  edestruct (while_rule
    (λ '(ui, li, idx), ∃ (i j : nat) pre,
       ui = Z.of_nat i ∧ li = Z.of_nat j ∧ (j ≤ m)%nat ∧ shape i pre idx ∧
       LB_vals cmp_op upper lower
       = pre ++ (Z.of_nat <$> scan cmp_op (drop i upper) (drop j lower) j))
    (λ '(ui, li, _), (Z.to_nat (Z.of_nat n - ui) + Z.to_nat (Z.of_nat m - li))%nat))
    as ([[ui li] idx] & -> & Hinv & Hexit); cycle 1.
  { exists 0%nat, 0%nat, []. unfold shape. simpl. rewrite !drop_0.
    repeat split; try done; lia. }
  { unfold pass_fuel. fold n m. lia. }
  - (* the loop over the remaining upper files *)
    destruct Hinv as (i & j & pre & -> & -> & Hj & Hshape & Hvals). simpl.
    edestruct (while_rule
      (λ '(ui, idx), ∃ (i : nat) pre, ui = Z.of_nat i ∧ shape i pre idx ∧
         LB_vals cmp_op upper lower
         = pre ++ (Z.of_nat <$> scan cmp_op (drop i upper) [] m))
      (λ '(ui, _), Z.to_nat (Z.of_nat n - ui)))
      as ([ui idx'] & -> & Hinv & Hexit'); cycle 1.
    { exists i, pre. split; [done|]. split; [done|]. rewrite Hvals.
      destruct Hshape as (Hi & _). apply andb_false_iff in Hexit.
      destruct Hexit as [Hx|Hx]; apply Z.ltb_ge in Hx.
      - rewrite !(drop_ge upper) by (fold n; lia). done.
      - assert (j = m) as Hjm by lia. rewrite Hjm.
        by rewrite (drop_ge lower) by (fold m; lia). }
    { unfold pass_fuel. fold n m. lia. }
    + destruct Hinv as (i' & pre' & -> & (Hi' & Hpre' & ->) & Hvals').
      apply Z.ltb_ge in Hexit'. simpl. f_equal.
      rewrite drop_ge in Hvals' by (fold n; lia). simpl in Hvals'.
      rewrite app_nil_r in Hvals'. rewrite Hvals'.
      rewrite take_ge, drop_ge by lia. by rewrite app_nil_r.
    + intros [ui idx0] (i0 & pre0 & -> & (Hi0 & Hpre0 & ->) & Hvals0) Hc.
      apply Z.ltb_lt in Hc.
      destruct (lookup_lt_is_Some_2 index i0) as [x Hx]; [lia|].
      destruct (lookup_lt_is_Some_2 upper i0) as [u Hu]; [fold n; lia|].
      rewrite (vec_update_nat _ _ _ x)
        by (rewrite prefix_lookup; [done|done|lia]).
      simpl. eexists. split; [done|]. split; [|lia].
      exists (S i0), (pre0 ++ [Z.of_nat m]). split; [lia|]. split.
      * split; [lia|]. split; [rewrite length_app; simpl; lia|].
        by apply prefix_step.
      * rewrite Hvals0, (drop_S _ _ _ Hu), scan_nil_r. simpl.
        by rewrite <- app_assoc.
  - intros [[ui li] idx] (i & j & pre & -> & -> & Hj & (Hi & Hpre & ->) & Hvals) Hc.
    apply andb_true_iff in Hc. destruct Hc as [Hc1 Hc2].
    apply Z.ltb_lt in Hc1, Hc2.
    destruct (lookup_lt_is_Some_2 index i) as [x Hx]; [lia|].
    destruct (lookup_lt_is_Some_2 upper i) as [u Hu]; [fold n; lia|].
    destruct (lookup_lt_is_Some_2 lower j) as [l Hl]; [fold m; lia|].
    rewrite !vec_at_nat, Hu, Hl. simpl.
    rewrite (drop_S _ _ _ Hu), (drop_S _ _ _ Hl), scan_cons in Hvals.
    destruct (cmp_op u l =? 0).
    + rewrite (vec_update_nat _ _ _ x)
        by (rewrite prefix_lookup; [done|done|lia]).
      simpl. eexists. split; [done|]. split; [|lia].
      exists (S i), (S j), (pre ++ [Z.of_nat j]).
      split; [lia|]. split; [lia|]. split; [lia|]. split.
      * split; [lia|]. split; [rewrite length_app; simpl; lia|].
        by apply prefix_step.
      * rewrite Hvals. simpl. by rewrite <- app_assoc.
    + destruct (0 <? cmp_op u l).
      * eexists. split; [done|]. split; [|lia].
        exists i, (S j), pre.
        split; [done|]. split; [lia|]. split; [lia|]. split; [done|].
        by rewrite (drop_S _ _ _ Hu).
      * rewrite (vec_update_nat _ _ _ x)
          by (rewrite prefix_lookup; [done|done|lia]).
        simpl. eexists. split; [done|]. split; [|lia].
        exists (S i), j, (pre ++ [Z.of_nat j]).
        split; [lia|]. split; [done|]. split; [done|]. split.
        -- split; [lia|]. split; [rewrite length_app; simpl; lia|].
           by apply prefix_step.
        -- rewrite Hvals, (drop_S _ _ _ Hl). simpl. by rewrite <- app_assoc.
Qed.
Lemma opp_eqb_0 (c : Z) : (- c =? 0) = (c =? 0).
Proof. destruct (Z.eqb_spec (- c) 0), (Z.eqb_spec c 0); lia || done. Qed.

Lemma opp_gtb_0 (c : Z) : (0 <? - c) = (c <? 0).
Proof. destruct (Z.ltb_spec 0 (- c)), (Z.ltb_spec c 0); lia || done. Qed.

(** A backward pass applies [set_index] once to every slot, with the
    values of [RB_vals]. *)
Lemma CalculateRB_run upper lower index cmp_op set_index :
  vec_size upper < 2 ^ 31 → vec_size lower < 2 ^ 31 →
  length index = length upper →
  CalculateRB upper lower index cmp_op set_index
  = Some (zip_with set_index index (RB_vals cmp_op upper lower)).
Proof.
  intros Hn Hm Hlen. unfold CalculateRB, vec_size in *.
  rewrite !to_int32_small by lia.
  set (n := length upper) in *. set (m := length lower) in *.
  set (ncmp := λ a b : F, - cmp_op a b).
  pose (shape := λ (r : nat) (suf : list Z) (idx : list IndexUnit),
    (r ≤ n)%nat ∧ (length suf + r = n)%nat ∧
    idx = take r index ++ zip_with set_index (drop r index) suf).
  edestruct (while_rule
    (λ '(ui, li, idx), ∃ (r rl : nat) suf,
       ui = Z.of_nat r - 1 ∧ li = Z.of_nat rl - 1 ∧ (rl ≤ m)%nat ∧
       shape r suf idx ∧
       RB_vals cmp_op upper lower
       = reverse (from_end lower <$>
           scan ncmp (reverse (take r upper)) (reverse (take rl lower))
             (m - rl)) ++ suf)
    (λ '(ui, li, _), (Z.to_nat (ui + 1) + Z.to_nat (li + 1))%nat))
    as ([[ui li] idx] & -> & Hinv & Hexit); cycle 1.
  { exists n, m, []. unfold shape. rewrite !take_ge by (fold n m; lia).
    rewrite drop_ge by lia. simpl. rewrite !app_nil_r, Nat.sub_diag.
    repeat split; try done; lia. }
  { unfold pass_fuel. fold n m. lia. }
  - destruct Hinv as (r & rl & suf & -> & -> & Hrl & Hshape & Hvals). simpl.
    edestruct (while_rule
      (λ '(ui, idx), ∃ (r : nat) suf, ui = Z.of_nat r - 1 ∧ shape r suf idx ∧
         RB_vals cmp_op upper lower
         = reverse (from_end lower <$> scan ncmp (reverse (take r upper)) [] m)
           ++ suf)
      (λ '(ui, _), Z.to_nat (ui + 1)))
      as ([ui idx'] & -> & Hinv & Hexit'); cycle 1.
    { exists r, suf. split; [done|]. split; [done|]. rewrite Hvals.
      destruct Hshape as (Hr & _). apply andb_false_iff in Hexit.
      destruct Hexit as [Hx|Hx]; apply Z.leb_gt in Hx.
      - assert (r = 0)%nat as Hr0 by lia. rewrite Hr0. done.
      - assert (rl = 0)%nat as Hrl0 by lia. rewrite Hrl0. simpl.
        by rewrite Nat.sub_0_r. }
    { destruct Hshape as (Hr & _). unfold pass_fuel. fold n m. lia. }
    + destruct Hinv as (r' & suf' & -> & (Hr' & Hsuf' & ->) & Hvals').
      apply Z.leb_gt in Hexit'. simpl. f_equal.
      assert (r' = 0)%nat as Hr0 by lia. rewrite Hr0 in *.
      simpl in Hvals'. rewrite Hvals'. simpl. by rewrite drop_0.
    + intros [ui idx0] (r0 & suf0 & -> & (Hr0 & Hsuf0 & ->) & Hvals0) Hc.
      apply Z.leb_le in Hc. destruct r0 as [|r0]; [lia|].
      replace (Z.of_nat (S r0) - 1) with (Z.of_nat r0) by lia.
      destruct (lookup_lt_is_Some_2 index r0) as [x Hx]; [lia|].
      destruct (lookup_lt_is_Some_2 upper r0) as [u Hu]; [fold n; lia|].
      rewrite (vec_update_nat _ _ _ x) by (rewrite suffix_lookup; [done|lia]).
      simpl. eexists. split; [done|]. split; [|lia].
      exists r0, (-1 :: suf0). split; [lia|]. split.
      * split; [lia|]. split; [simpl; lia|]. by apply suffix_step.
      * rewrite Hvals0, (take_S_r _ _ _ Hu), reverse_snoc, scan_nil_r.
        rewrite fmap_cons, reverse_cons, <- app_assoc. simpl.
        do 3 f_equal. unfold from_end, vec_size. fold m. lia.
  - intros [[ui li] idx] (r & rl & suf & -> & -> & Hrl & (Hr & Hsuf & ->) & Hvals) Hc.
    apply andb_true_iff in Hc. destruct Hc as [Hc1 Hc2].
    apply Z.leb_le in Hc1, Hc2.
    destruct r as [|r]; [lia|]. destruct rl as [|rl]; [lia|].
    replace (Z.of_nat (S r) - 1) with (Z.of_nat r) by lia.
    replace (Z.of_nat (S rl) - 1) with (Z.of_nat rl) by lia.
    destruct (lookup_lt_is_Some_2 index r) as [x Hx]; [lia|].
    destruct (lookup_lt_is_Some_2 upper r) as [u Hu]; [fold n; lia|].
    destruct (lookup_lt_is_Some_2 lower rl) as [l Hl]; [fold m; lia|].
    rewrite !vec_at_nat, Hu, Hl. simpl.
    rewrite (take_S_r _ _ _ Hu), (take_S_r _ _ _ Hl), !reverse_snoc, scan_cons
      in Hvals.
    change (ncmp u l) with (- cmp_op u l) in Hvals.
    rewrite opp_eqb_0, opp_gtb_0 in Hvals.
    assert (Hval : from_end lower (m - S rl) = Z.of_nat rl)
      by (unfold from_end, vec_size; fold m; lia).
    replace (S (m - S rl)) with (m - rl)%nat in Hvals by lia.
    destruct (cmp_op u l =? 0).
    + rewrite (vec_update_nat _ _ _ x) by (rewrite suffix_lookup; [done|lia]).
      simpl. eexists. split; [done|]. split; [|lia].
      exists r, rl, (Z.of_nat rl :: suf).
      split; [lia|]. split; [lia|]. split; [lia|]. split.
      * split; [lia|]. split; [simpl; lia|]. by apply suffix_step.
      * rewrite Hvals, fmap_cons, reverse_cons, <- app_assoc, Hval. done.
    + destruct (cmp_op u l <? 0).
      * eexists. split; [done|]. split; [|lia].
        exists (S r), rl, suf.
        split; [lia|]. split; [lia|]. split; [lia|]. split; [done|].
        by rewrite (take_S_r _ _ _ Hu), reverse_snoc.
      * rewrite (vec_update_nat _ _ _ x) by (rewrite suffix_lookup; [done|lia]).
        simpl. eexists. split; [done|]. split; [|lia].
        exists r, (S rl), (Z.of_nat rl :: suf).
        split; [lia|]. split; [lia|]. split; [lia|]. split.
        -- split; [lia|]. split; [simpl; lia|]. by apply suffix_step.
        -- rewrite Hvals, fmap_cons, reverse_cons, <- app_assoc, Hval.
           by rewrite (take_S_r _ _ _ Hl), reverse_snoc.
Qed.
End PassRuns.

(** ** What [scan] finds when the upper list is ordered *)

Lemma ascending_tail {F} (cmp_op : F → F → Z) u us :
  ascending cmp_op (u :: us) → ascending cmp_op us.
Proof.
  intros Hasc i i' v v' Hv Hv' Hlt.
  apply (Hasc (S i) (S i')); [done|done|lia].
Qed.

Lemma scan_first_pos {F} (cmp_op : F → F → Z) us :
  ascending cmp_op us →
  ∀ ls pre,
    (∀ u l, head us = Some u → l ∈ pre → 0 < cmp_op u l) →
    ∀ i u, us !! i = Some u →
      ∃ p, scan cmp_op us ls (length pre) !! i = Some p ∧
           first_pos (λ l, cmp_op u l ≤ 0) (pre ++ ls) p.
Proof.
  induction us as [|u us IHus]; intros Hasc ls pre Hpre i u0 Hu0; [done|].
  specialize (IHus (ascending_tail _ _ _ Hasc)).
  assert (Hnext : ∀ u' l, head us = Some u' → 0 ≤ cmp_op u l → 0 < cmp_op u' l).
  { intros u' l Hu' Hl. destruct us as [|u1 us]; simplify_eq/=.
    apply (Hasc 0%nat 1%nat u _ eq_refl eq_refl); [lia|done]. }
  assert (Hpre_u : ∀ l, l ∈ pre → 0 < cmp_op u l) by (intros; by apply Hpre).
  clear Hpre. revert pre Hpre_u i u0 Hu0.
  induction ls as [|l ls IHls]; intros pre Hpre i u0 Hu0.
  - rewrite scan_nil_r. destruct i as [|i]; simplify_eq/=.
    + exists (length pre). split; [done|]. rewrite app_nil_r. split; [done|].
      split.
      * intros q l Hq _ Hle. apply list_elem_of_lookup_2 in Hq.
        specialize (Hpre l Hq). lia.
      * intros l Hl. apply lookup_lt_Some in Hl. lia.
    + apply IHus; [|done]. intros u' l Hu' Hl. apply Hnext; [done|].
      specialize (Hpre l Hl). lia.
  - rewrite scan_cons.
    assert (Hsnoc : ∀ x, x ∈ pre ++ [l] → x ∈ pre ∨ x = l).
    { intros x Hx. apply elem_of_app in Hx as [?|Hx]; [by left|].
      apply list_elem_of_singleton in Hx. by right. }
    destruct (Z.eqb_spec (cmp_op u l) 0) as [Heq|Hne].
    + destruct i as [|i]; simplify_eq/=.
      * exists (length pre). split; [done|]. split; [rewrite length_app; lia|].
        split.
        -- intros q x Hq Hlt Hle. rewrite lookup_app_l in Hq by done.
           apply list_elem_of_lookup_2 in Hq. specialize (Hpre x Hq). lia.
        -- intros x Hx. rewrite list_lookup_middle in Hx by done.
           simplify_eq. lia.
      * replace (S (length pre)) with (length (pre ++ [l]))
          by (rewrite length_app; simpl; lia).
        replace (pre ++ l :: ls) with ((pre ++ [l]) ++ ls)
          by (by rewrite <- app_assoc).
        apply IHus; [|done]. intros u' x Hu' Hx. apply Hnext; [done|].
        destruct (Hsnoc x Hx) as [Hx'| ->]; [specialize (Hpre x Hx')|]; lia.
    + destruct (Z.ltb_spec 0 (cmp_op u l)) as [Hgt|Hle].
      * replace (S (length pre)) with (length (pre ++ [l]))
          by (rewrite length_app; simpl; lia).
        replace (pre ++ l :: ls) with ((pre ++ [l]) ++ ls)
          by (by rewrite <- app_assoc).
        apply IHls; [|done]. intros x Hx.
        destruct (Hsnoc x Hx) as [Hx'| ->]; [by apply Hpre|done].
      * destruct i as [|i]; simplify_eq/=.
        -- exists (length pre). split; [done|].
           split; [rewrite length_app; lia|]. split.
           ++ intros q x Hq Hlt Hle'. rewrite lookup_app_l in Hq by done.
              apply list_elem_of_lookup_2 in Hq. specialize (Hpre x Hq). lia.
           ++ intros x Hx. rewrite list_lookup_middle in Hx by done.
              simplify_eq. lia.
        -- apply IHus; [|done]. intros u' x Hu' Hx. apply Hnext; [done|].
           specialize (Hpre x Hx). lia.
Qed.

Lemma LB_vals_first {F} (cmp_op : F → F → Z) upper lower i u :
  ascending cmp_op upper → upper !! i = Some u →
  ∃ p, LB_vals cmp_op upper lower !! i = Some (Z.of_nat p) ∧
       first_pos (λ l, cmp_op u l ≤ 0) lower p.
Proof.
  intros Hasc Hu.
  destruct (scan_first_pos cmp_op upper Hasc lower [] ltac:(by intros ?? _ ?%elem_of_nil) i u Hu)
    as (p & Hp & Hfirst).
  exists p. split; [|done]. unfold LB_vals. rewrite list_lookup_fmap.
  simpl in Hp. by rewrite Hp.
Qed.

Lemma RB_vals_first {F} (cmp_op : F → F → Z) upper lower i u :
  ascending (λ a b, - cmp_op a b) (reverse upper) → upper !! i = Some u →
  ∃ p, RB_vals cmp_op upper lower !! i = Some (from_end lower p) ∧
       first_pos (λ l, 0 ≤ cmp_op u l) (reverse lower) p.
Proof.
  intros Hasc Hu. pose proof (lookup_lt_Some _ _ _ Hu) as Hlt.
  assert (Hrev : reverse upper !! (length upper - S i)%nat = Some u).
  { rewrite reverse_lookup by lia. rewrite <- Hu. f_equal. lia. }
  destruct (scan_first_pos _ _ Hasc (reverse lower) []
              ltac:(by intros ?? _ ?%elem_of_nil) _ u Hrev)
    as (p & Hp & (Hle & Hbefore & Hat)).
  exists p. split.
  - unfold RB_vals. rewrite reverse_lookup
      by (rewrite length_fmap, scan_length, length_reverse; lia).
    rewrite length_fmap, scan_length, length_reverse, list_lookup_fmap.
    simpl in Hp. by rewrite Hp.
  - split; [done|]. split.
    + intros q l Hq Hqp Hl. apply (Hbefore q l Hq Hqp). lia.
    + intros l Hl. specialize (Hat l Hl). simpl in Hat. lia.
Qed.

(** ** Keys and sorted levels *)

Section Order.
Context {K : Type} `{ComparatorLaws K}.
Implicit Types (a b c : K) (f g : FileMetaData K).
Implicit Types (fs upper lower : list (FileMetaData K)).

Lemma compare_ge_le a b : 0 ≤ Compare a b ↔ key_le b a.
Proof. unfold key_le. pose proof (compare_flip a b). lia. Qed.

Lemma compare_gt_lt a b : 0 < Compare a b ↔ key_lt b a.
Proof. unfold key_lt. pose proof (compare_flip b a). lia. Qed.

Lemma key_lt_le a b : key_lt a b → key_le a b.
Proof. unfold key_lt, key_le. lia. Qed.

Lemma key_not_le a b : ¬ key_le a b ↔ key_lt b a.
Proof. unfold key_lt, key_le. pose proof (compare_flip b a). lia. Qed.

Lemma key_le_trans a b c : key_le a b → key_le b c → key_le a c.
Proof. apply compare_trans. Qed.

Lemma key_le_lt_trans a b c : key_le a b → key_lt b c → key_lt a c.
Proof.
  intros Hab Hbc. apply key_not_le. intros Hca.
  apply (proj2 (key_not_le c b)); [done|]. by apply key_le_trans with a.
Qed.

Lemma key_lt_le_trans a b c : key_lt a b → key_le b c → key_lt a c.
Proof.
  intros Hab Hbc. apply key_not_le. intros Hca.
  apply (proj2 (key_not_le b a)); [done|]. by apply key_le_trans with c.
Qed.

Lemma key_lt_trans a b c : key_lt a b → key_lt b c → key_lt a c.
Proof. intros Hab Hbc. eapply key_lt_le_trans; [done|by apply key_lt_le]. Qed.

Lemma files_sorted_cons f fs :
  files_sorted (f :: fs) = true →
  key_le (smallest f) (largest f) ∧
  (∀ g, head fs = Some g → key_lt (largest f) (smallest g)) ∧
  files_sorted fs = true.
Proof.
  simpl. rewrite !andb_true_iff, Z.leb_le. intros [[Hf Hg] Hfs].
  split; [done|]. split; [|done].
  intros g Hhd. destruct fs as [|g' fs]; simplify_eq/=. by apply Z.ltb_lt.
Qed.

Lemma sorted_file fs i f :
  files_sorted fs = true → fs !! i = Some f →
  key_le (smallest f) (largest f).
Proof.
  revert i. induction fs as [|f0 fs IH]; intros i Hs Hf; [done|].
  apply files_sorted_cons in Hs as (Hf0 & _ & Hfs).
  destruct i as [|i]; simplify_eq/=; eauto.
Qed.

Lemma sorted_after_head f fs i g :
  files_sorted (f :: fs) = true → fs !! i = Some g →
  key_lt (largest f) (smallest g).
Proof.
  revert f i. induction fs as [|f1 fs IH]; intros f i Hs Hg; [done|].
  apply files_sorted_cons in Hs as (Hf & Hhd & Hfs).
  specialize (Hhd f1 eq_refl).
  destruct i as [|i]; simplify_eq/=; [done|].
  specialize (IH f1 i Hfs Hg).
  apply files_sorted_cons in Hfs as (Hf1 & _ & _).
  eapply key_lt_trans; [done|]. by eapply key_le_lt_trans.
Qed.

(** Files of a sorted level are apart: an earlier file ends before a later
    one starts. *)
Lemma sorted_apart fs i j f g :
  files_sorted fs = true → fs !! i = Some f → fs !! j = Some g →
  (i < j)%nat → key_lt (largest f) (smallest g).
Proof.
  revert i j. induction fs as [|f0 fs IH]; intros i j Hs Hf Hg Hij; [done|].
  destruct j as [|j]; [lia|]. destruct i as [|i]; simplify_eq/=.
  - by eapply sorted_after_head.
  - apply files_sorted_cons in Hs as (_ & _ & Hfs).
    apply (IH i j); [done|done|done|lia].
Qed.

Lemma sorted_smallest_lt fs i j f g :
  files_sorted fs = true → fs !! i = Some f → fs !! j = Some g →
  (i < j)%nat → key_lt (smallest f) (smallest g).
Proof.
  intros Hs Hf Hg Hij. eapply key_le_lt_trans.
  - by eapply sorted_file.
  - by eapply sorted_apart.
Qed.

Lemma sorted_largest_lt fs i j f g :
  files_sorted fs = true → fs !! i = Some f → fs !! j = Some g →
  (i < j)%nat → key_lt (largest f) (largest g).
Proof.
  intros Hs Hf Hg Hij. eapply key_lt_le_trans.
  - by eapply sorted_apart.
  - by eapply sorted_file.
Qed.

(** A forward pass on [ku] against [kl] finds, for each upper file, the
    first lower file whose key [kl] is not below the upper key. *)
Lemma LB_key_spec (ku kl : FileMetaData K → K) upper lower i u :
  key_ascending ku upper → upper !! i = Some u →
  ∃ v, LB_vals (λ x y, Compare (ku x) (kl y)) upper lower !! i = Some v ∧
       0 ≤ v ≤ vec_size lower ∧
       (∀ j g, vec_at lower j = Some g → j < v → ¬ key_le (ku u) (kl g)) ∧
       (∀ g, vec_at lower v = Some g → key_le (ku u) (kl g)).
Proof.
  intros Hasc Hu.
  destruct (LB_vals_first (λ x y, Compare (ku x) (kl y)) upper lower i u)
    as (p & Hp & Hle & Hbefore & Hat); [|done|].
  { intros k k' w w' Hw Hw' Hk l Hl. simpl in *.
    apply compare_gt_lt. apply compare_ge_le in Hl.
    eapply key_le_lt_trans; [done|]. by apply (Hasc k k'). }
  exists (Z.of_nat p). split; [done|]. unfold vec_size. split; [lia|]. split.
  - intros j g Hg Hj. apply vec_at_Some in Hg as [Hj0 Hg].
    apply (Hbefore _ _ Hg). lia.
  - intros g Hg. rewrite vec_at_nat in Hg. by apply Hat.
Qed.

(** A backward pass finds the last lower file whose key [kl] is not above
    the upper key. *)
Lemma RB_key_spec (ku kl : FileMetaData K → K) upper lower i u :
  key_ascending ku upper → upper !! i = Some u →
  ∃ v, RB_vals (λ x y, Compare (ku x) (kl y)) upper lower !! i = Some v ∧
       -1 ≤ v < vec_size lower ∧
       (∀ j g, vec_at lower j = Some g → v < j → ¬ key_le (kl g) (ku u)) ∧
       (∀ g, vec_at lower v = Some g → key_le (kl g) (ku u)).
Proof.
  intros Hasc Hu.
  destruct (RB_vals_first (λ x y, Compare (ku x) (kl y)) upper lower i u)
    as (p & Hp & Hle & Hbefore & Hat); [|done|].
  { intros k k' w w' Hw Hw' Hk l Hl. simpl in *.
    pose proof (lookup_lt_Some _ _ _ Hw) as Hk1.
    pose proof (lookup_lt_Some _ _ _ Hw') as Hk2.
    rewrite length_reverse in Hk1, Hk2.
    rewrite reverse_lookup in Hw, Hw' by done.
    assert (key_lt (ku w') (ku w)) as Hlt
      by (eapply Hasc; [exact Hw'|exact Hw|lia]).
    assert (key_le (ku w) (kl l)) as Hwl by (unfold key_le; lia).
    pose proof (key_lt_le_trans _ _ _ Hlt Hwl) as Hgoal.
    unfold key_lt in Hgoal. lia. }
  rewrite length_reverse in Hle.
  exists (from_end lower p). split; [done|].
  unfold from_end, vec_size. split; [lia|]. split.
  - intros j g Hg Hj. apply vec_at_Some in Hg as [Hj0 Hg].
    pose proof (lookup_lt_Some _ _ _ Hg) as Hjm.
    intros Hkey. apply compare_ge_le in Hkey. revert Hkey.
    apply (Hbefore (length lower - S (Z.to_nat j))%nat); [|lia].
    rewrite reverse_lookup by lia. rewrite <- Hg. f_equal. lia.
  - intros g Hg. apply vec_at_Some in Hg as [Hv Hg].
    apply compare_ge_le. apply Hat.
    rewrite reverse_lookup by lia. rewrite <- Hg. f_equal. lia.
Qed.

Lemma level_hints_length upper lower :
  length (level_hints upper lower) = length upper.
Proof. unfold level_hints. by rewrite length_fmap, length_seq. Qed.

(** The hint record of a file of a sorted level: each field is the bound
    it is named after. *)
Lemma level_hints_sorted upper lower i f :
  files_sorted upper = true → upper !! i = Some f →
  ∃ h, level_hints upper lower !! i = Some h ∧
       is_lb (smallest f) lower (smallest_lb h) ∧
       is_lb (largest f) lower (largest_lb h) ∧
       is_rb (smallest f) lower (smallest_rb h) ∧
       is_rb (largest f) lower (largest_rb h).
Proof.
  intros Hs Hf. pose proof (lookup_lt_Some _ _ _ Hf) as Hi.
  assert (Hsm : key_ascending smallest upper)
    by (intros ???????; by eapply sorted_smallest_lt).
  assert (Hlg : key_ascending largest upper)
    by (intros ???????; by eapply sorted_largest_lt).
  destruct (LB_key_spec smallest largest upper lower i f Hsm Hf) as (v1 & E1 & P1).
  destruct (LB_key_spec largest largest upper lower i f Hlg Hf) as (v2 & E2 & P2).
  destruct (RB_key_spec smallest smallest upper lower i f Hsm Hf) as (v3 & E3 & P3).
  destruct (RB_key_spec largest smallest upper lower i f Hlg Hf) as (v4 & E4 & P4).
  exists (mkIndexUnit v1 v2 v3 v4). split; [|done].
  unfold level_hints. rewrite list_lookup_fmap, lookup_seq_lt by done. simpl.
  f_equal. f_equal; by apply list_lookup_total_correct.
Qed.
End Order.

(** ** One build *)

Lemma for_levels_max {St} (Inv : Z → St → Prop) (lo hi : Z)
    (body : Z → St → option St) (s : St) :
  Inv lo s →
  (∀ l s, lo ≤ l < hi → Inv l s → ∃ s', body l s = Some s' ∧ Inv (l + 1) s') →
  ∃ s', for_levels lo hi body s = Some s' ∧ Inv (Z.max lo hi) s'.
Proof.
  intros Hinv Hstep. destruct (Z.le_gt_cases lo hi) as [Hle|Hgt].
  - rewrite Z.max_r by done. by apply for_levels_rule.
  - rewrite Z.max_l by lia. exists s. split; [|done].
    apply for_levels_empty. lia.
Qed.

Lemma forallb_lookup {A} (f : A → bool) (l : list A) i x :
  forallb f l = true → l !! i = Some x → f x = true.
Proof.
  revert i. induction l as [|y l IH]; intros i Hall Hx; [done|].
  simpl in Hall. apply andb_true_iff in Hall as [Hy Hl].
  destruct i as [|i]; simplify_eq/=; eauto.
Qed.

Lemma vec_at_insert_eq {A} (v : list A) (i : Z) x :
  0 ≤ i < vec_size v → vec_at (<[Z.to_nat i := x]> v) i = Some x.
Proof.
  unfold vec_size. intros Hi. apply vec_at_Some. split; [lia|].
  apply list_lookup_insert_eq. lia.
Qed.

Lemma vec_at_insert_ne {A} (v : list A) (i j : Z) x :
  0 ≤ i → i ≠ j → vec_at (<[Z.to_nat i := x]> v) j = vec_at v j.
Proof.
  intros Hi Hne. unfold vec_at. destruct (j <? 0) eqn:Hj; [done|].
  apply Z.ltb_ge in Hj. apply list_lookup_insert_ne. lia.
Qed.

Lemma vec_size_insert {A} (v : list A) (i : nat) x :
  vec_size (<[i := x]> v) = vec_size v.
Proof. unfold vec_size. by rewrite length_insert. Qed.

Lemma vec_store_run {A} (v : list A) (i : Z) x :
  0 ≤ i < vec_size v → vec_store v i x = Some (<[Z.to_nat i := x]> v).
Proof.
  intros Hi. destruct (vec_at_is_Some v i Hi) as [y Hy].
  unfold vec_store, vec_update. by rewrite Hy.
Qed.

Section BuildRuns.
Context {K : Type} `{Comparator K}.
Variable default_unit : IndexUnit.
Implicit Types (upper lower : list (FileMetaData K)).
Implicit Types (files : list (list (FileMetaData K))).

Lemma sizes_fit_at files u fs :
  sizes_fit files = true → vec_at files u = Some fs →
  0 ≤ vec_size fs < 2 ^ 31.
Proof.
  intros Hfit Hfs. apply vec_at_Some in Hfs as [_ Hfs].
  apply (forallb_lookup _ _ _ _ Hfit) in Hfs. apply Z.ltb_lt in Hfs.
  unfold vec_size in *. lia.
Qed.

(** The four passes overwrite every field of every record. *)
Lemma hints_assemble upper lower (index : list IndexUnit) :
  length index = length upper →
  zip_with set_largest_rb
    (zip_with set_smallest_rb
       (zip_with set_largest_lb
          (zip_with set_smallest_lb index
             (LB_vals cmp_smallest_largest upper lower))
          (LB_vals cmp_largest_largest upper lower))
       (RB_vals cmp_smallest_smallest upper lower))
    (RB_vals cmp_largest_smallest upper lower)
  = level_hints upper lower.
Proof.
  intros Hlen. apply list_eq. intros i. unfold level_hints.
  rewrite !lookup_zip_with, list_lookup_fmap.
  destruct (decide (i < length upper)%nat) as [Hi|Hi].
  - rewrite lookup_seq_lt by done.
    rewrite (list_lookup_lookup_total_lt (LB_vals cmp_smallest_largest upper lower) i)
      by (rewrite LB_vals_length; lia).
    rewrite (list_lookup_lookup_total_lt (LB_vals cmp_largest_largest upper lower) i)
      by (rewrite LB_vals_length; lia).
    rewrite (list_lookup_lookup_total_lt (RB_vals cmp_smallest_smallest upper lower) i)
      by (rewrite RB_vals_length; lia).
    rewrite (list_lookup_lookup_total_lt (RB_vals cmp_largest_smallest upper lower) i)
      by (rewrite RB_vals_length; lia).
    destruct (lookup_lt_is_Some_2 index i) as [x ->]; [lia|]. done.
  - rewrite lookup_seq_ge by lia.
    by rewrite (lookup_ge_None_2 index) by lia.
Qed.

(** One iteration of the level loop of [UpdateIndex]. *)
Lemma UpdateIndex_level_run files level fi upper lower :
  vec_at files level = Some upper → vec_at files (level + 1) = Some lower →
  vec_size upper < 2 ^ 31 → vec_size lower < 2 ^ 31 →
  0 ≤ level < vec_size (level_rb_ fi) →
  level < vec_size (next_level_index_ fi) →
  UpdateIndex_level default_unit files level fi
  = Some (mkFileIndexer (num_levels_ fi)
            (if decide (upper = []) then next_level_index_ fi
             else <[Z.to_nat level := level_hints upper lower]>
                    (next_level_index_ fi))
            (<[Z.to_nat level := vec_size upper - 1]> (level_rb_ fi))).
Proof.
  intros Hup Hlow Hn Hm Hrb Hnext. unfold UpdateIndex_level.
  rewrite Hup, Hlow. simpl.
  assert (0 ≤ vec_size upper) as Hn0 by (unfold vec_size; lia).
  rewrite size_minus_one, to_int32_small by lia.
  rewrite vec_store_run by done. simpl.
  destruct (Z.eqb_spec (vec_size upper) 0) as [Hz|Hnz].
  - rewrite decide_True; [done|].
    destruct upper; [done|]. unfold vec_size in Hz. simpl in Hz. lia.
  - rewrite decide_False by (intros ->; by apply Hnz).
    unfold with_level_rb, with_next_level_index. simpl.
    destruct (vec_at_is_Some (next_level_index_ fi) level) as [old ->]; [lia|].
    simpl. rewrite to_size_t_small by lia.
    replace (Z.to_nat (vec_size upper)) with (length upper)
      by (unfold vec_size; lia).
    rewrite CalculateLB_run by (done || by rewrite length_resize). simpl.
    rewrite CalculateLB_run
      by (done || by rewrite length_zip_with, length_resize, LB_vals_length, Nat.min_id).
    simpl. rewrite CalculateRB_run
      by (done || by rewrite !length_zip_with, length_resize, !LB_vals_length, !Nat.min_id).
    simpl. rewrite CalculateRB_run
      by (done || by rewrite !length_zip_with, length_resize, !LB_vals_length,
                       RB_vals_length, !Nat.min_id).
    simpl. rewrite hints_assemble by (by rewrite length_resize).
    rewrite vec_store_run by lia. done.
Qed.
End BuildRuns.

Section BuildSpec.
Context {K : Type} `{Comparator K}.
Variable default_unit : IndexUnit.
Implicit Types (files : list (list (FileMetaData K))).

(** A build on a well-formed object with one file list per level and
    [int32_t] file counts returns, and leaves what [built] says.  Nothing
    is asked of the order of the files here. *)
Lemma UpdateIndex_built fi files :
  wf fi → 1 ≤ num_levels_ fi → vec_size files = num_levels_ fi →
  sizes_fit files = true →
  ∃ fi', UpdateIndex default_unit fi (Some files) = Some fi' ∧
         built fi files fi'.
Proof.
  intros (HL & Hnext & Hrb) HL1 Hfiles Hfit. unfold UpdateIndex.
  set (L := num_levels_ fi) in *.
  rewrite to_uint32_small by lia.
  pose (Inv := λ (t : Z) (s : FileIndexer),
    num_levels_ s = L ∧ vec_size (next_level_index_ s) = L ∧
    vec_size (level_rb_ s) = L ∧
    (∀ u fs, 1 ≤ u < t → vec_at files u = Some fs →
       vec_at (level_rb_ s) u = Some (vec_size fs - 1)) ∧
    (∀ u upper lower, 1 ≤ u < t →
       vec_at files u = Some upper → vec_at files (u + 1) = Some lower →
       upper ≠ [] →
       vec_at (next_level_index_ s) u = Some (level_hints upper lower)) ∧
    (∀ u, u < 1 ∨ t ≤ u ∨ vec_at files u = Some [] →
       vec_at (next_level_index_ s) u = vec_at (next_level_index_ fi) u)).
  destruct (for_levels_max Inv 1 (L - 1) (UpdateIndex_level default_unit files) fi)
    as (fi1 & -> & (HL' & Hnext1 & Hrb1 & Hbound & Hhints & Hkeep)).
  { unfold Inv. repeat split; try done; intros; lia. }
  { intros l s Hl (HsL & Hsnext & Hsrb & Hsbound & Hshints & Hskeep).
    destruct (vec_at_is_Some files l) as [upper Hup]; [lia|].
    destruct (vec_at_is_Some files (l + 1)) as [lower Hlow]; [lia|].
    pose proof (sizes_fit_at _ _ _ Hfit Hup) as Hn.
    pose proof (sizes_fit_at _ _ _ Hfit Hlow) as Hm.
    eexists. split.
    { apply UpdateIndex_level_run with (upper := upper) (lower := lower);
        try done; lia. }
    unfold Inv. simpl. split; [done|]. split.
    { destruct (decide (upper = [])); [done|]. by rewrite vec_size_insert. }
    split; [by rewrite vec_size_insert|]. split; [|split].
    - intros u fs Hu Hfs. destruct (decide (u = l)) as [->|Hne].
      + rewrite vec_at_insert_eq by lia. by simplify_eq.
      + rewrite vec_at_insert_ne by lia. apply Hsbound; [lia|done].
    - intros u up lo Hu Hfu Hfl Hne. destruct (decide (u = l)) as [->|Hul].
      + simplify_eq. rewrite decide_False by done.
        by rewrite vec_at_insert_eq by lia.
      + destruct (decide (upper = [])).
        * apply Hshints; [lia|done..].
        * rewrite vec_at_insert_ne by lia. apply Hshints; [lia|done..].
    - intros u Hu. destruct (decide (u = l)) as [->|Hul].
      + destruct Hu as [Hu|[Hu|Hu]]; [lia|lia|]. simplify_eq.
        rewrite decide_True by done. apply Hskeep. by right; right.
      + destruct (decide (upper = [])).
        * apply Hskeep. destruct Hu as [Hu|[Hu|Hu]]; [left|right; left|right; right]; done || lia.
        * rewrite vec_at_insert_ne by lia.
          apply Hskeep. destruct Hu as [Hu|[Hu|Hu]]; [left|right; left|right; right]; done || lia. }
  simpl.
  destruct (vec_at_is_Some files (L - 1)) as [last_files Hlast]; [lia|].
  rewrite Hlast. simpl. rewrite vec_store_run by lia. simpl.
  pose proof (sizes_fit_at _ _ _ Hfit Hlast) as Hsz.
  rewrite size_minus_one by lia.
  eexists. split; [done|]. unfold built, wf. simpl. fold L.
  rewrite vec_size_insert, HL'. split; [done|].
  split; [repeat split; done || lia|]. split; [|split].
  - intros u fs Hu Hfs. destruct (decide (u = L - 1)) as [->|Hne].
    + rewrite vec_at_insert_eq by lia. by simplify_eq.
    + rewrite vec_at_insert_ne by lia.
      apply vec_at_lt in Hfs as Hlt. apply Hbound; [lia|done].
  - intros u upper lower Hu. apply Hhints. lia.
  - intros u Hu. apply Hkeep. destruct Hu as [Hu|[Hu|Hu]].
    + left; lia.
    + destruct (decide (u < 1)); [left; lia|right; left; lia].
    + by right; right.
Qed.
End BuildSpec.

(** ** Bounds of one key *)

Section Bounds.
Context {K : Type} `{ComparatorLaws K}.
Implicit Types (k : K) (lower : list (FileMetaData K)).

Lemma key_le_refl k : key_le k k.
Proof. unfold key_le. pose proof (compare_flip k k). lia. Qed.

Lemma is_lb_mono k k' lower v v' :
  key_le k k' → is_lb k lower v → is_lb k' lower v' → v ≤ v'.
Proof.
  intros Hk (Hv & Hbefore & _) (Hv' & _ & Hat').
  destruct (Z.le_gt_cases v v') as [|Hgt]; [done|exfalso].
  destruct (vec_at_is_Some lower v') as [g Hg]; [lia|].
  apply (Hbefore v' g Hg); [lia|].
  eapply key_le_trans; [done|]. by apply Hat'.
Qed.

Lemma is_rb_mono k k' lower v v' :
  key_le k k' → is_rb k lower v → is_rb k' lower v' → v ≤ v'.
Proof.
  intros Hk (Hv & _ & Hat) (Hv' & Hafter' & _).
  destruct (Z.le_gt_cases v v') as [|Hgt]; [done|exfalso].
  destruct (vec_at_is_Some lower v) as [g Hg]; [lia|].
  apply (Hafter' v g Hg); [lia|].
  eapply key_le_trans; [|done]. by apply Hat.
Qed.

(** The left bound of a key is at most one past the right bound of a key
    that is not smaller: no file lies strictly between them. *)
Lemma lb_le_rb_succ k k' lower a b :
  files_sorted lower = true → key_le k k' →
  is_lb k lower a → is_rb k' lower b → a ≤ b + 1.
Proof.
  intros Hs Hk (Ha & Hbefore & _) (Hb & Hafter & _).
  destruct (Z.le_gt_cases a (b + 1)) as [|Hgt]; [done|exfalso].
  destruct (vec_at_is_Some lower (a - 1)) as [g Hg]; [lia|].
  pose proof (Hbefore _ g Hg ltac:(lia)) as H1. apply key_not_le in H1.
  pose proof (Hafter _ g Hg ltac:(lia)) as H2. apply key_not_le in H2.
  apply vec_at_Some in Hg as [_ Hg].
  pose proof (sorted_file _ _ _ Hs Hg) as Hg'.
  assert (key_lt k' k') as Hcontra.
  { eapply key_lt_le_trans; [|exact Hk].
    eapply key_lt_trans; [exact H2|]. by eapply key_le_lt_trans. }
  unfold key_lt in Hcontra. pose proof (key_le_refl k') as Hrefl.
  unfold key_le in Hrefl. pose proof (compare_flip k' k'). lia.
Qed.

(** A file that holds the key lies between the two bounds of the key. *)
Lemma candidate_ge_lb k k' lower a j g :
  is_lb k lower a → vec_at lower j = Some g →
  key_le k k' → key_le k' (largest g) → a ≤ j.
Proof.
  intros (Ha & Hbefore & _) Hg Hk Hkg.
  destruct (Z.le_gt_cases a j) as [|Hgt]; [done|exfalso].
  apply (Hbefore j g Hg); [lia|]. by eapply key_le_trans.
Qed.

Lemma candidate_le_rb k k' lower b j g :
  is_rb k' lower b → vec_at lower j = Some g →
  key_le k k' → key_le (smallest g) k → j ≤ b.
Proof.
  intros (Hb & Hafter & _) Hg Hk Hgk.
  destruct (Z.le_gt_cases j b) as [|Hgt]; [done|exfalso].
  apply (Hafter j g Hg); [lia|]. by eapply key_le_trans.
Qed.
End Bounds.

Lemma Z_Compare_laws : ComparatorLaws Z.
Proof.
  split; unfold Compare, Z_Comparator, Z_Compare.
  - intros a b. destruct (Z.compare_spec a b), (Z.compare_spec b a); lia.
  - intros a b c.
    destruct (Z.compare_spec a b), (Z.compare_spec b c), (Z.compare_spec a c);
      lia.
Qed.

(** ** The cases of [GetNextLevelIndex] *)

(** On an indexed level, with the vectors in range, the call returns the
    bounds picked by the comparison results, or stops at one of its three
    final assertions. *)
Lemma GetNextLevelIndex_cases fi level file_index cs cl rbl rbn index h hp :
  0 ≤ num_levels_ fi < 2 ^ 32 →
  1 ≤ level ≤ num_levels_ fi - 2 →
  vec_at (level_rb_ fi) level = Some rbl →
  0 ≤ file_index ≤ rbl → rbl < 2 ^ 31 →
  vec_at (level_rb_ fi) (level + 1) = Some rbn →
  vec_at (next_level_index_ fi) level = Some index →
  vec_at index file_index = Some h →
  (0 < file_index → vec_at index (file_index - 1) = Some hp) →
  let lb := if cs <? 0 then (if 0 <? file_index then largest_lb hp else 0)
            else if (cs =? 0) || (cl <? 0) then smallest_lb h
            else largest_lb h in
  let rb := if (cs <? 0) || (cs =? 0) then smallest_rb h
            else if (cl <? 0) || (cl =? 0) then largest_rb h
            else rbn in
  GetNextLevelIndex fi level file_index cs cl
  = if (0 <=? lb) && (lb <=? rb + 1) && (rb <=? rbn) then Some (lb, rb)
    else None.
Proof.
  intros HL Hlevel Hrbl Hi Hfit Hrbn Hindex Hh Hhp lb rb.
  unfold GetNextLevelIndex.
  rewrite to_uint32_small by lia.
  destruct (Z.ltb_spec 0 level); [|lia]. simpl.
  destruct (Z.eqb_spec level (num_levels_ fi - 1)); [lia|].
  destruct (Z.ltb_spec level (num_levels_ fi - 1)); [|lia]. simpl.
  rewrite Hrbl. simpl. rewrite to_int32_small by lia.
  destruct (Z.leb_spec file_index rbl); [|lia]. simpl.
  rewrite Hindex. simpl. rewrite Hh, Hrbn. simpl.
  assert (Hfin : ∀ l r,
    (assert_ (0 <=? l);; assert_ (l <=? r + 1);; assert_ (r <=? rbn);;
     Some (l, r))
    = if (0 <=? l) && (l <=? r + 1) && (r <=? rbn) then Some (l, r) else None).
  { intros l r. by destruct (0 <=? l), (l <=? r + 1), (r <=? rbn). }
  subst lb rb.
  destruct (Z.ltb_spec cs 0) as [Hcs|Hcs]; simpl.
  - destruct (Z.ltb_spec 0 file_index) as [Hfi|Hfi]; simpl.
    + rewrite Hhp by done. simpl. apply Hfin.
    + exact (Hfin 0 (smallest_rb h)).
  - destruct (Z.eqb_spec cs 0) as [Hcs0|Hcs0]; simpl; [apply Hfin|].
    destruct (Z.ltb_spec 0 cs); [|lia]. simpl.
    destruct (Z.ltb_spec cl 0) as [Hcl|Hcl]; simpl; [apply Hfin|].
    destruct (Z.eqb_spec cl 0) as [Hcl0|Hcl0]; simpl; [apply Hfin|].
    destruct (Z.ltb_spec 0 cl); [|lia]. simpl. apply Hfin.
Qed.

(** ** The hints of a build on sorted levels *)

Section Resolve.
Context {K : Type} `{ComparatorLaws K}.
Variable default_unit : IndexUnit.
Implicit Types (files : list (list (FileMetaData K))).
Implicit Types (upper lower : list (FileMetaData K)).

Lemma build_ready_built fi files :
  build_ready fi files →
  ∃ fi', UpdateIndex default_unit fi (Some files) = Some fi' ∧
         built fi files fi'.
Proof. intros (Hwf & HL & Hfiles & Hfit). by apply UpdateIndex_built. Qed.

Lemma levels_sorted_at files u fs :
  levels_sorted files = true → 1 ≤ u → vec_at files u = Some fs →
  files_sorted fs = true.
Proof.
  intros Hs Hu Hfs. apply vec_at_Some in Hfs as [_ Hfs].
  apply (forallb_lookup _ _ (Z.to_nat u - 1) fs Hs).
  rewrite lookup_drop. rewrite <- Hfs. f_equal. lia.
Qed.

(** The record of file [i] of an indexed level, and of the file before
    it. *)
Lemma built_record fi files fi' u upper lower i f :
  built fi files fi' → levels_sorted files = true →
  1 ≤ u ≤ num_levels_ fi - 2 →
  vec_at files u = Some upper → vec_at files (u + 1) = Some lower →
  vec_at upper i = Some f →
  ∃ h, vec_at (next_level_index_ fi') u = Some (level_hints upper lower) ∧
       vec_at (level_hints upper lower) i = Some h ∧
       is_lb (smallest f) lower (smallest_lb h) ∧
       is_lb (largest f) lower (largest_lb h) ∧
       is_rb (smallest f) lower (smallest_rb h) ∧
       is_rb (largest f) lower (largest_rb h).
Proof.
  intros (_ & _ & _ & Hhints & _) Hs Hu Hup Hlow Hf.
  pose proof (levels_sorted_at files u upper Hs ltac:(lia) Hup) as Hsup.
  apply vec_at_Some in Hf as [Hi Hf].
  destruct (level_hints_sorted upper lower _ f Hsup Hf) as (h & Hh & Hfacts).
  exists h. split.
  - apply Hhints; [done..|]. intros ->. done.
  - split; [|done]. apply vec_at_Some. by split.
Qed.

(** [GetNextLevelIndex] on an indexed level of a build on sorted levels:
    the bounds it returns, read off the records, and the three final
    assertions, which hold. *)
Lemma resolve_on_built fi files fi' u upper lower i f cs cl :
  build_ready fi files → built fi files fi' → levels_sorted files = true →
  1 ≤ u ≤ num_levels_ fi - 2 →
  vec_at files u = Some upper → vec_at files (u + 1) = Some lower →
  vec_at upper i = Some f →
  ∃ h hp lb rb,
    vec_at (level_hints upper lower) i = Some h ∧
    is_lb (smallest f) lower (smallest_lb h) ∧
    is_lb (largest f) lower (largest_lb h) ∧
    is_rb (smallest f) lower (smallest_rb h) ∧
    is_rb (largest f) lower (largest_rb h) ∧
    (0 < i → ∃ fp, vec_at upper (i - 1) = Some fp ∧
                   vec_at (level_hints upper lower) (i - 1) = Some hp ∧
                   is_lb (largest fp) lower (largest_lb hp)) ∧
    lb = (if cs <? 0 then (if 0 <? i then largest_lb hp else 0)
          else if (cs =? 0) || (cl <? 0) then smallest_lb h
          else largest_lb h) ∧
    rb = (if (cs <? 0) || (cs =? 0) then smallest_rb h
          else if (cl <? 0) || (cl =? 0) then largest_rb h
          else vec_size lower - 1) ∧
    vec_at (level_rb_ fi') (u + 1) = Some (vec_size lower - 1) ∧
    GetNextLevelIndex fi' u i cs cl = Some (lb, rb) ∧
    0 ≤ lb ∧ lb ≤ rb + 1 ∧ rb ≤ vec_size lower - 1.
Proof.
  intros (Hwf & HL & Hfiles & Hfit) Hbuilt Hs Hu Hup Hlow Hf.
  destruct (built_record _ _ _ _ _ _ _ _ Hbuilt Hs Hu Hup Hlow Hf)
    as (h & Hindex & Hh & Hslb & Hllb & Hsrb & Hlrb).
  pose proof (levels_sorted_at files u upper Hs ltac:(lia) Hup) as Hsup.
  pose proof (levels_sorted_at files (u + 1) lower Hs ltac:(lia) Hlow) as Hslow.
  pose proof (vec_at_lt _ _ _ Hf) as Hi.
  pose proof (sizes_fit_at _ _ _ Hfit Hup) as Hn.
  assert (Hprev : ∃ hp, 0 < i → ∃ fp, vec_at upper (i - 1) = Some fp ∧
            vec_at (level_hints upper lower) (i - 1) = Some hp ∧
            is_lb (largest fp) lower (largest_lb hp)).
  { destruct (decide (0 < i)) as [Hpos|Hzero]; [|exists h; lia].
    destruct (vec_at_is_Some upper (i - 1)) as [fp Hfp]; [lia|].
    destruct (built_record _ _ _ _ _ _ _ _ Hbuilt Hs Hu Hup Hlow Hfp)
      as (hp & _ & Hhp & _ & Hp & _).
    exists hp. intros _. by exists fp. }
  destruct Hprev as (hp & Hprev).
  destruct Hbuilt as (HL' & Hwf' & Hbound & _ & _).
  pose proof (Hbound u upper ltac:(lia) Hup) as Hrbl.
  pose proof (Hbound (u + 1) lower ltac:(lia) Hlow) as Hrbn.
  pose proof (GetNextLevelIndex_cases fi' u i cs cl _ _ _ h hp
    ltac:(destruct Hwf' as (? & _); lia) ltac:(lia) Hrbl ltac:(lia)
    ltac:(lia) Hrbn Hindex Hh
    ltac:(intros Hpos; by destruct (Hprev Hpos) as (? & _ & ? & _))) as Hcases.
  simpl in Hcases.
  (* the facts that make the three assertions hold *)
  apply vec_at_Some in Hf as Hf'. destruct Hf' as [_ Hf'].
  pose proof (sorted_file _ _ _ Hsup Hf') as Hfile.
  pose proof (lb_le_rb_succ _ _ _ _ _ Hslow (key_le_refl _) Hslb Hsrb) as F1.
  pose proof (lb_le_rb_succ _ _ _ _ _ Hslow Hfile Hslb Hlrb) as F2.
  pose proof (lb_le_rb_succ _ _ _ _ _ Hslow (key_le_refl _) Hllb Hlrb) as F3.
  assert (F4 : 0 < i → 0 ≤ largest_lb hp ≤ smallest_rb h + 1).
  { intros Hpos. destruct (Hprev Hpos) as (fp & Hfp & _ & Hp).
    split; [destruct Hp as (? & _); lia|].
    apply (lb_le_rb_succ (largest fp) (smallest f) lower); [done| |done..].
    apply key_lt_le. apply vec_at_Some in Hfp as [_ Hfp].
    eapply sorted_apart; [exact Hsup|exact Hfp|exact Hf'|lia]. }
  pose proof (proj1 Hslb) as B1. pose proof (proj1 Hllb) as B2.
  pose proof (proj1 Hsrb) as B3. pose proof (proj1 Hlrb) as B4.
  eexists h, hp, _, _.
  split; [done|]. split; [done|]. split; [done|]. split; [done|].
  split; [done|]. split; [done|]. split; [reflexivity|].
  split; [reflexivity|]. split; [done|].
  match type of Hcases with _ = (if ?c then _ else _) =>
    assert (Hc : c = true) end.
  { rewrite !andb_true_iff, !Z.leb_le.
    destruct (Z.ltb_spec cs 0), (Z.eqb_spec cs 0), (Z.ltb_spec cl 0),
      (Z.eqb_spec cl 0), (Z.ltb_spec 0 i); simpl; lia. }
  rewrite Hc in Hcases. split; [done|].
  rewrite !andb_true_iff, !Z.leb_le in Hc. lia.
Qed.
End Resolve.

(** * The properties of the indexer *)

Section Properties.
Context {K : Type} `{ComparatorLaws K}.
Variable default_unit : IndexUnit.
Implicit Types (files : list (list (FileMetaData K))).
Implicit Types (upper lower : list (FileMetaData K)).

(** C1, amended.  After a build on sorted levels, for a file [i] of an
    indexed level [u] and a key [k] that, when it precedes the file, follows
    the file before it (the position a search for [k] in level [u] gives),
    the range returned by [GetNextLevelIndex] for the signs of comparing
    [k] with the file holds the index of every file of level [u+1] whose
    range contains [k]. *)
Theorem resolve_sound fi files :
  build_ready fi files → levels_sorted files = true →
  ∃ fi', UpdateIndex default_unit fi (Some files) = Some fi' ∧
    ∀ u upper lower i f k,
      1 ≤ u ≤ num_levels_ fi - 2 →
      vec_at files u = Some upper → vec_at files (u + 1) = Some lower →
      vec_at upper i = Some f →
      (∀ fp, vec_at upper (i - 1) = Some fp → key_lt k (smallest f) →
             key_lt (largest fp) k) →
      ∃ lb rb,
        GetNextLevelIndex fi' u i (Z.sgn (Compare k (smallest f)))
          (Z.sgn (Compare k (largest f))) = Some (lb, rb) ∧
        ∀ j g, vec_at lower j = Some g →
               key_le (smallest g) k → key_le k (largest g) → lb ≤ j ≤ rb.
Proof.
  intros Hready Hs.
  destruct (build_ready_built default_unit fi files Hready) as (fi' & Hrun & Hbuilt).
  exists fi'. split; [done|]. intros u upper lower i f k Hu Hup Hlow Hf Hpos.
  destruct (resolve_on_built fi files fi' u upper lower i f
              (Z.sgn (Compare k (smallest f))) (Z.sgn (Compare k (largest f)))
              Hready Hbuilt Hs Hu Hup Hlow Hf)
    as (h & hp & lb & rb & _ & Hslb & Hllb & Hsrb & Hlrb & Hprev & Hlb & Hrb
        & _ & Hres & _).
  exists lb, rb. split; [done|]. intros j g Hg Hlo Hhi.
  pose proof (vec_at_lt _ _ _ Hg) as Hj.
  assert (Hs_lt : Compare k (smallest f) < 0 → key_lt k (smallest f)) by done.
  assert (Hs_ge : 0 ≤ Compare k (smallest f) → key_le (smallest f) k)
    by (intros; by apply compare_ge_le).
  assert (Hs_le : Compare k (smallest f) ≤ 0 → key_le k (smallest f)) by done.
  assert (Hl_ge : 0 ≤ Compare k (largest f) → key_le (largest f) k)
    by (intros; by apply compare_ge_le).
  assert (Hl_le : Compare k (largest f) ≤ 0 → key_le k (largest f)) by done.
  split.
  - (* the left bound *)
    rewrite Hlb.
    destruct (Z.ltb_spec (Z.sgn (Compare k (smallest f))) 0) as [Hcs|Hcs].
    + destruct (Z.ltb_spec 0 i) as [Hi|Hi]; [|lia].
      destruct (Hprev Hi) as (fp & Hfp & _ & Hp).
      apply (candidate_ge_lb (largest fp) k lower _ j g); [done|done| |done].
      apply key_lt_le, Hpos; [done|]. apply Hs_lt. lia.
    + destruct (Z.eqb_spec (Z.sgn (Compare k (smallest f))) 0) as [Hz|Hz];
        [|destruct (Z.ltb_spec (Z.sgn (Compare k (largest f))) 0) as [Hcl|Hcl]];
        simpl.
      * apply (candidate_ge_lb (smallest f) k lower _ j g); [done..| |done].
        apply Hs_ge. lia.
      * apply (candidate_ge_lb (smallest f) k lower _ j g); [done..| |done].
        apply Hs_ge. lia.
      * apply (candidate_ge_lb (largest f) k lower _ j g); [done..| |done].
        apply Hl_ge. lia.
  - (* the right bound *)
    rewrite Hrb.
    destruct (Z.ltb_spec (Z.sgn (Compare k (smallest f))) 0) as [Hcs|Hcs];
      [|destruct (Z.eqb_spec (Z.sgn (Compare k (smallest f))) 0) as [Hz|Hz]];
      simpl.
    + apply (candidate_le_rb k (smallest f) lower _ j g); [done..| |done].
      apply Hs_le. lia.
    + apply (candidate_le_rb k (smallest f) lower _ j g); [done..| |done].
      apply Hs_le. lia.
    + destruct (Z.ltb_spec (Z.sgn (Compare k (largest f))) 0) as [Hcl|Hcl];
        [|destruct (Z.eqb_spec (Z.sgn (Compare k (largest f))) 0) as [Hz'|Hz']];
        simpl.
      * apply (candidate_le_rb k (largest f) lower _ j g); [done..| |done].
        apply Hl_le. lia.
      * apply (candidate_le_rb k (largest f) lower _ j g); [done..| |done].
        apply Hl_le. lia.
      * lia.
Qed.

(** C2.  After a build on sorted levels, the four fields of the record of
    file [i] of an indexed level are the bounds defined by [is_lb] and
    [is_rb] for the file's smallest and largest key in the next level. *)
Theorem UpdateIndex_fields fi files :
  build_ready fi files → levels_sorted files = true →
  ∃ fi', UpdateIndex default_unit fi (Some files) = Some fi' ∧
    ∀ u upper lower i f,
      1 ≤ u ≤ num_levels_ fi - 2 →
      vec_at files u = Some upper → vec_at files (u + 1) = Some lower →
      vec_at upper i = Some f →
      ∃ index h,
        vec_at (next_level_index_ fi') u = Some index ∧
        vec_at index i = Some h ∧
        is_lb (smallest f) lower (smallest_lb h) ∧
        is_lb (largest f) lower (largest_lb h) ∧
        is_rb (smallest f) lower (smallest_rb h) ∧
        is_rb (largest f) lower (largest_rb h).
Proof.
  intros Hready Hs.
  destruct (build_ready_built default_unit fi files Hready) as (fi' & Hrun & Hbuilt).
  exists fi'. split; [done|]. intros u upper lower i f Hu Hup Hlow Hf.
  destruct (built_record fi files fi' u upper lower i f Hbuilt Hs Hu Hup Hlow Hf)
    as (h & Hindex & Hh & Hfacts).
  by exists (level_hints upper lower), h.
Qed.

(** C3, amended.  After a build on sorted levels every record of an indexed
    level has [0 <= smallest_lb <= smallest_rb + 1],
    [smallest_rb <= largest_rb] and [largest_lb <= level_rb_[u+1] + 1] (the
    size of the next level), and the four fields do not decrease along the
    level. *)
Theorem hint_invariants fi files :
  build_ready fi files → levels_sorted files = true →
  ∃ fi', UpdateIndex default_unit fi (Some files) = Some fi' ∧
    ∀ u upper i f,
      1 ≤ u ≤ num_levels_ fi - 2 →
      vec_at files u = Some upper → vec_at upper i = Some f →
      ∃ index h bound,
        vec_at (next_level_index_ fi') u = Some index ∧
        vec_at index i = Some h ∧
        vec_at (level_rb_ fi') (u + 1) = Some bound ∧
        0 ≤ smallest_lb h ≤ smallest_rb h + 1 ∧
        smallest_rb h ≤ largest_rb h ∧
        largest_lb h ≤ bound + 1 ∧
        ∀ i' h', i ≤ i' → vec_at index i' = Some h' →
          smallest_lb h ≤ smallest_lb h' ∧ largest_lb h ≤ largest_lb h' ∧
          smallest_rb h ≤ smallest_rb h' ∧ largest_rb h ≤ largest_rb h'.
Proof.
  intros Hready Hs.
  destruct (build_ready_built default_unit fi files Hready) as (fi' & Hrun & Hbuilt).
  exists fi'. split; [done|]. intros u upper i f Hu Hup Hf.
  destruct Hready as (Hwf & HL & Hfiles & Hfit).
  destruct (vec_at_is_Some files (u + 1)) as [lower Hlow]; [lia|].
  destruct (built_record fi files fi' u upper lower i f Hbuilt Hs Hu Hup Hlow Hf)
    as (h & Hindex & Hh & Hslb & Hllb & Hsrb & Hlrb).
  pose proof (levels_sorted_at files u upper Hs ltac:(lia) Hup) as Hsup.
  pose proof (levels_sorted_at files (u + 1) lower Hs ltac:(lia) Hlow) as Hslow.
  pose proof Hbuilt as (_ & _ & Hbound & _ & _).
  pose proof (Hbound (u + 1) lower ltac:(lia) Hlow) as Hrbn.
  apply vec_at_Some in Hf as Hf'. destruct Hf' as [Hi Hf'].
  pose proof (sorted_file _ _ _ Hsup Hf') as Hfile.
  exists (level_hints upper lower), h, (vec_size lower - 1).
  split; [done|]. split; [done|]. split; [done|]. split; [|split; [|split]].
  - split; [destruct Hslb as (? & _); lia|].
    by apply (lb_le_rb_succ (smallest f) (smallest f) lower);
      [|apply key_le_refl|..].
  - by apply (is_rb_mono (smallest f) (largest f) lower).
  - destruct Hllb as (? & _). lia.
  - intros i' h' Hii' Hh'.
    pose proof (vec_at_lt _ _ _ Hh') as Hi'.
    unfold vec_size in Hi'. rewrite level_hints_length in Hi'.
    destruct (vec_at_is_Some upper i') as [f' Hf2]; [unfold vec_size; lia|].
    destruct (built_record fi files fi' u upper lower i' f' Hbuilt Hs Hu Hup Hlow Hf2)
      as (h2 & _ & Hh2 & Hslb' & Hllb' & Hsrb' & Hlrb').
    assert (h2 = h') as -> by congruence.
    apply vec_at_Some in Hf2 as [_ Hf2].
    assert (key_le (smallest f) (smallest f') ∧ key_le (largest f) (largest f'))
      as [Hsm Hlg].
    { destruct (decide (i = i')) as [->|Hne].
      - assert (f' = f) as -> by congruence. split; apply key_le_refl.
      - split; apply key_lt_le.
        + eapply sorted_smallest_lt; [exact Hsup|exact Hf'|exact Hf2|lia].
        + eapply sorted_largest_lt; [exact Hsup|exact Hf'|exact Hf2|lia]. }
    split; [by apply (is_lb_mono (smallest f) (smallest f') lower)|].
    split; [by apply (is_lb_mono (largest f) (largest f') lower)|].
    split; [by apply (is_rb_mono (smallest f) (smallest f') lower)|].
    by apply (is_rb_mono (largest f) (largest f') lower).
Qed.

(** At the last level the call returns [(0, -1)] before its remaining
    assertions. *)
Lemma GetNextLevelIndex_last fi file_index cs cl :
  2 ≤ num_levels_ fi < 2 ^ 32 →
  GetNextLevelIndex fi (num_levels_ fi - 1) file_index cs cl = Some (0, -1).
Proof.
  intros HL. unfold GetNextLevelIndex. rewrite to_uint32_small by lia.
  destruct (Z.ltb_spec 0 (num_levels_ fi - 1)); [|lia]. simpl.
  by rewrite Z.eqb_refl.
Qed.

(** C4.  After a build on sorted levels, a call of [GetNextLevelIndex]
    with [level >= 1] and [file_index <= level_rb_[level]] returns: none of
    its assertions fails, whatever the two comparison results are.  The
    bounds satisfy [0 <= left_bound <= right_bound + 1], and
    [right_bound <= level_rb_[level + 1]] when the level has a next
    level. *)
Theorem resolve_postconditions fi files :
  build_ready fi files → levels_sorted files = true →
  ∃ fi', UpdateIndex default_unit fi (Some files) = Some fi' ∧
    ∀ level file_index cs cl bound,
      1 ≤ level ≤ num_levels_ fi - 1 →
      vec_at (level_rb_ fi') level = Some bound →
      0 ≤ file_index ≤ bound →
      ∃ lb rb,
        GetNextLevelIndex fi' level file_index cs cl = Some (lb, rb) ∧
        0 ≤ lb ∧ lb ≤ rb + 1 ∧
        (level < num_levels_ fi - 1 →
         ∃ next_bound, vec_at (level_rb_ fi') (level + 1) = Some next_bound ∧
                       rb ≤ next_bound).
Proof.
  intros Hready Hs.
  destruct (build_ready_built default_unit fi files Hready) as (fi' & Hrun & Hbuilt).
  exists fi'. split; [done|]. intros level file_index cs cl bound Hlevel Hb Hi.
  pose proof Hready as (Hwf & HL & Hfiles & Hfit).
  pose proof Hbuilt as (HL' & Hwf' & Hbound & _ & _).
  destruct (decide (level = num_levels_ fi - 1)) as [->|Hne].
  - exists 0, (-1). rewrite <- HL'. rewrite GetNextLevelIndex_last
      by (destruct Hwf' as (? & _); lia).
    repeat split; try done; lia.
  - destruct (vec_at_is_Some files level) as [upper Hup]; [lia|].
    destruct (vec_at_is_Some files (level + 1)) as [lower Hlow]; [lia|].
    pose proof (Hbound level upper ltac:(lia) Hup) as Hb'.
    assert (bound = vec_size upper - 1) as -> by congruence.
    destruct (vec_at_is_Some upper file_index) as [f Hf]; [lia|].
    destruct (resolve_on_built fi files fi' level upper lower file_index f
                cs cl Hready Hbuilt Hs ltac:(lia) Hup Hlow Hf)
      as (h & hp & lb & rb & _ & _ & _ & _ & _ & _ & _ & _ & Hrbn & Hres
          & Hlb0 & Hlb1 & Hrb1).
    exists lb, rb. split; [done|]. split; [done|]. split; [done|].
    intros _. by exists (vec_size lower - 1).
Qed.

(** C6.  On an indexed level, with [file_index <= level_rb_[level]] and
    [cmp_smallest < 0], the left bound of [GetNextLevelIndex] is the
    [largest_lb] of the file before when [file_index > 0] and [0] when
    [file_index = 0], and the right bound is the file's own [smallest_rb]:
    the call returns this pair when it satisfies the three final
    assertions, and it returns no other pair. *)
Theorem resolve_target_precedes fi level file_index cs cl bound next_bound
    index h hp :
  0 ≤ num_levels_ fi < 2 ^ 32 →
  1 ≤ level ≤ num_levels_ fi - 2 →
  vec_at (level_rb_ fi) level = Some bound →
  0 ≤ file_index ≤ bound → bound < 2 ^ 31 →
  vec_at (level_rb_ fi) (level + 1) = Some next_bound →
  vec_at (next_level_index_ fi) level = Some index →
  vec_at index file_index = Some h →
  (0 < file_index → vec_at index (file_index - 1) = Some hp) →
  cs < 0 →
  let lb := if 0 <? file_index then largest_lb hp else 0 in
  let rb := smallest_rb h in
  (0 ≤ lb → lb ≤ rb + 1 → rb ≤ next_bound →
   GetNextLevelIndex fi level file_index cs cl = Some (lb, rb)) ∧
  (∀ l r, GetNextLevelIndex fi level file_index cs cl = Some (l, r) →
          l = lb ∧ r = rb).
Proof.
  intros HL Hlevel Hb Hi Hfit Hnb Hindex Hh Hhp Hcs lb rb.
  pose proof (GetNextLevelIndex_cases fi level file_index cs cl bound
                next_bound index h hp HL Hlevel Hb Hi Hfit Hnb Hindex Hh Hhp)
    as Hcases.
  simpl in Hcases. destruct (Z.ltb_spec cs 0); [|lia]. simpl in Hcases.
  fold lb rb in Hcases. rewrite Hcases. split.
  - intros Hlb0 Hlb1 Hrb1.
    destruct (Z.leb_spec 0 lb), (Z.leb_spec lb (rb + 1)),
      (Z.leb_spec rb next_bound); simpl; done || lia.
  - intros l r Hres.
    destruct ((0 <=? lb) && (lb <=? rb + 1) && (rb <=? next_bound));
      by simplify_eq.
Qed.
End Properties.

Section Rebuild.
Context {K : Type} `{Comparator K}.
Variable default_unit : IndexUnit.
Implicit Types (files : list (list (FileMetaData K))).

(** C7, amended.  A build returns for every well-formed object and every
    array of file lists, sorted or not.  An indexed level whose file list is
    empty keeps the hint vector it had before the call, so it has no
    records when it had none (after the constructor or [ClearIndex]); an
    indexed level with files gets one record per file. *)
Theorem UpdateIndex_empty_levels fi files :
  build_ready fi files →
  ∃ fi', UpdateIndex default_unit fi (Some files) = Some fi' ∧
    ∀ u fs,
      1 ≤ u ≤ num_levels_ fi - 2 → vec_at files u = Some fs →
      (fs = [] →
       vec_at (next_level_index_ fi') u = vec_at (next_level_index_ fi) u ∧
       LevelIndexSize fi' u = LevelIndexSize fi u) ∧
      (fs ≠ [] → LevelIndexSize fi' u = Some (vec_size fs)).
Proof.
  intros (Hwf & HL & Hfiles & Hfit).
  destruct (UpdateIndex_built default_unit fi files Hwf HL Hfiles Hfit)
    as (fi' & Hrun & (_ & _ & _ & Hhints & Hkeep)).
  exists fi'. split; [done|]. intros u fs Hu Hfs. split.
  - intros ->. assert (Heq := Hkeep u ltac:(by right; right)).
    split; [done|]. unfold LevelIndexSize. by rewrite Heq.
  - intros Hne.
    destruct (vec_at_is_Some files (u + 1)) as [lower Hlow]; [lia|].
    unfold LevelIndexSize. rewrite (Hhints u fs lower Hu Hfs Hlow Hne). simpl.
    unfold vec_size at 1. rewrite level_hints_length.
    pose proof (sizes_fit_at _ _ _ Hfit Hfs). fold (vec_size fs).
    by rewrite to_uint32_small by lia.
Qed.

(** C8.  [UpdateIndex] with a null [files] returns and leaves the object
    as it was: every hint vector and every entry of [level_rb_]. *)
Theorem UpdateIndex_null fi :
  UpdateIndex (K := K) default_unit fi None = Some fi.
Proof. reflexivity. Qed.

(** C10.  On a build, for an indexed level with files, each of the four
    passes applies its assignment once to the record of every upper file
    ([zip_with] over the whole vector, whatever it held), so the records
    of the level after the build are those of [level_hints], which reads
    the file lists alone. *)
Theorem UpdateIndex_overwrites fi files :
  build_ready fi files →
  ∃ fi', UpdateIndex default_unit fi (Some files) = Some fi' ∧
    ∀ u upper lower,
      1 ≤ u ≤ num_levels_ fi - 2 →
      vec_at files u = Some upper → vec_at files (u + 1) = Some lower →
      upper ≠ [] →
      (∀ index cmp_op set_index,
         length index = length upper →
         CalculateLB upper lower index cmp_op set_index
         = Some (zip_with set_index index (LB_vals cmp_op upper lower)) ∧
         length (LB_vals cmp_op upper lower) = length index ∧
         CalculateRB upper lower index cmp_op set_index
         = Some (zip_with set_index index (RB_vals cmp_op upper lower)) ∧
         length (RB_vals cmp_op upper lower) = length index) ∧
      vec_at (next_level_index_ fi') u = Some (level_hints upper lower) ∧
      ∀ i h, vec_at (level_hints upper lower) i = Some h →
        vec_at (LB_vals cmp_smallest_largest upper lower) i
          = Some (smallest_lb h) ∧
        vec_at (LB_vals cmp_largest_largest upper lower) i
          = Some (largest_lb h) ∧
        vec_at (RB_vals cmp_smallest_smallest upper lower) i
          = Some (smallest_rb h) ∧
        vec_at (RB_vals cmp_largest_smallest upper lower) i
          = Some (largest_rb h).
Proof.
  intros (Hwf & HL & Hfiles & Hfit).
  destruct (UpdateIndex_built default_unit fi files Hwf HL Hfiles Hfit)
    as (fi' & Hrun & (_ & _ & _ & Hhints & _)).
  exists fi'. split; [done|]. intros u upper lower Hu Hup Hlow Hne.
  pose proof (sizes_fit_at _ _ _ Hfit Hup) as Hn.
  pose proof (sizes_fit_at _ _ _ Hfit Hlow) as Hm.
  split; [|split].
  - intros index cmp_op set_index Hlen.
    rewrite CalculateLB_run, CalculateRB_run by (done || lia).
    by rewrite LB_vals_length, RB_vals_length.
  - by apply Hhints.
  - intros i h Hh. apply vec_at_Some in Hh as [Hi Hh].
    unfold level_hints in Hh. rewrite list_lookup_fmap in Hh.
    destruct (seq 0 (length upper) !! Z.to_nat i) as [k|] eqn:Hk; [|done].
    apply lookup_seq in Hk as [-> Hlt]. simpl in Hh. simplify_eq. simpl.
    rewrite !vec_at_Some.
    repeat split; try done; apply list_lookup_lookup_total_lt;
      rewrite ?LB_vals_length, ?RB_vals_length; done.
Qed.
End Rebuild.

(** The constructor leaves a well-formed object. *)
Lemma wf_new (num_levels : Z) :
  0 ≤ num_levels < 2 ^ 32 → wf (FileIndexer_new num_levels).
Proof.
  intros HL. unfold wf, FileIndexer_new, vec_size. simpl.
  rewrite !length_replicate. lia.
Qed.

(** The run of [ClearIndex] on a well-formed object. *)
Lemma ClearIndex_run fi :
  wf fi →
  ∃ fi', ClearIndex fi = Some fi' ∧
    num_levels_ fi' = num_levels_ fi ∧
    level_rb_ fi' = level_rb_ fi ∧
    vec_size (next_level_index_ fi') = vec_size (next_level_index_ fi) ∧
    vec_at (next_level_index_ fi') 0 = vec_at (next_level_index_ fi) 0 ∧
    ∀ level, 1 ≤ level < num_levels_ fi →
      vec_at (next_level_index_ fi') level = Some [].
Proof.
  intros (HL & Hnext & Hrb). unfold ClearIndex.
  pose (Inv := λ (t : Z) (s : FileIndexer),
    num_levels_ s = num_levels_ fi ∧ level_rb_ s = level_rb_ fi ∧
    vec_size (next_level_index_ s) = vec_size (next_level_index_ fi) ∧
    (∀ l, l < 1 ∨ t ≤ l →
       vec_at (next_level_index_ s) l = vec_at (next_level_index_ fi) l) ∧
    (∀ l, 1 ≤ l < t → vec_at (next_level_index_ s) l = Some [])).
  destruct (for_levels_max Inv 1 (num_levels_ fi)
    (λ level fi, v ← vec_store (next_level_index_ fi) level [];
                 Some (with_next_level_index fi v)) fi)
    as (fi' & Hrun & (H1 & H2 & H3 & H4 & H5)).
  { unfold Inv. repeat split; try done. intros; lia. }
  { intros l s Hl (Hs1 & Hs2 & Hs3 & Hs4 & Hs5).
    rewrite vec_store_run by lia. simpl. eexists. split; [done|].
    unfold Inv. simpl. rewrite vec_size_insert.
    split; [done|]. split; [done|]. split; [done|]. split.
    - intros l' Hl'. rewrite vec_at_insert_ne by lia. apply Hs4. lia.
    - intros l' Hl'. destruct (decide (l' = l)) as [->|Hne].
      + apply vec_at_insert_eq. lia.
      + rewrite vec_at_insert_ne by lia. apply Hs5. lia. }
  exists fi'. split; [done|]. split; [done|]. split; [done|].
  split; [done|]. split.
  - apply H4. lia.
  - intros level Hlevel. apply H5. lia.
Qed.

(** The operations keep the object well formed. *)
Lemma ClearIndex_wf fi fi' : wf fi → ClearIndex fi = Some fi' → wf fi'.
Proof.
  intros Hwf Hrun. pose proof Hwf as (HL & Hnext & Hrb).
  destruct (ClearIndex_run fi Hwf) as (fi2 & Hrun2 & H1 & H2 & H3 & _).
  assert (fi2 = fi') as -> by congruence.
  unfold wf. rewrite H1, H2, H3. done.
Qed.

Lemma UpdateIndex_wf {K} `{Comparator K} default_unit fi
    (files : list (list (FileMetaData K))) fi' :
  build_ready fi files →
  UpdateIndex default_unit fi (Some files) = Some fi' → wf fi'.
Proof.
  intros (Hwf & HL & Hfiles & Hfit) Hrun.
  destruct (UpdateIndex_built default_unit fi files Hwf HL Hfiles Hfit)
    as (fi2 & Hrun2 & _ & Hwf2 & _).
  by assert (fi2 = fi') as -> by congruence.
Qed.

(** C9.  For every object with one slot per level in both vectors (what
    the constructor leaves and every operation keeps), [ClearIndex]
    returns; it empties the hint vector of every level from 1 on, and
    leaves the slot of level 0, every entry of [level_rb_] and the number
    of levels as they were. *)
Theorem ClearIndex_frame fi :
  wf fi →
  ∃ fi', ClearIndex fi = Some fi' ∧
    num_levels_ fi' = num_levels_ fi ∧
    level_rb_ fi' = level_rb_ fi ∧
    vec_size (next_level_index_ fi') = vec_size (next_level_index_ fi) ∧
    vec_at (next_level_index_ fi') 0 = vec_at (next_level_index_ fi) 0 ∧
    ∀ level, 1 ≤ level < num_levels_ fi →
      vec_at (next_level_index_ fi') level = Some [].
Proof. apply ClearIndex_run. Qed.

(** * Concrete runs *)

Lemma ex_built_indexer : ex_built = Some ex_indexer.
Proof. reflexivity. Qed.

Lemma ex_ready : build_ready (FileIndexer_new 3) ex_files.
Proof. repeat split; by_compute. Qed.

Lemma ex_indexer_wf : wf ex_indexer.
Proof. repeat split; by_compute. Qed.

(** C1, counterexample.  In the scenario of [ex_files], for the level-1
    file [[30,40]] (index 1) and the key 7, the call returns the range
    [(1, 1)], which leaves out index 0 of level 2, the file [[5,15]] that
    contains 7. *)
Lemma resolve_unsound_off_position :
  levels_sorted ex_files = true ∧
  ∃ fi', UpdateIndex zero_unit (FileIndexer_new 3) (Some ex_files) = Some fi' ∧
    GetNextLevelIndex fi' 1 1 (Z.sgn (Compare 7 30)) (Z.sgn (Compare 7 40))
      = Some (1, 1) ∧
    vec_at [mkFile 5 15; mkFile 18 25; mkFile 35 45] 0 = Some (mkFile 5 15) ∧
    key_le 5 7 ∧ key_le 7 15 ∧ ¬ (1 ≤ 0 ≤ 1).
Proof.
  split; [reflexivity|]. exists ex_indexer.
  repeat split; try by_compute. lia.
Qed.

(** [resolve_sound] in the scenario: the level-1 file [[30,40]] and the key
    36, which the level-2 file [[35,45]] (index 2) contains. *)
Lemma resolve_sound_witness :
  ∃ fi' lb rb,
    UpdateIndex zero_unit (FileIndexer_new 3) (Some ex_files) = Some fi' ∧
    GetNextLevelIndex fi' 1 1 (Z.sgn (Compare 36 30)) (Z.sgn (Compare 36 40))
      = Some (lb, rb) ∧
    lb ≤ 2 ≤ rb.
Proof.
  destruct (@resolve_sound Z Z_Comparator Z_Compare_laws zero_unit (FileIndexer_new 3) ex_files
              ex_ready eq_refl) as (fi' & Hrun & Hall).
  destruct (Hall 1 [mkFile 10 20; mkFile 30 40]
              [mkFile 5 15; mkFile 18 25; mkFile 35 45] 1 (mkFile 30 40) 36)
    as (lb & rb & Hres & Hin).
  - simpl. lia.
  - reflexivity.
  - reflexivity.
  - reflexivity.
  - intros fp Hfp _.
    assert (fp = mkFile 10 20) as -> by (vm_compute in Hfp; congruence).
    by_compute.
  - exists fi', lb, rb. split; [exact Hrun|]. split; [exact Hres|].
    apply (Hin 2 (mkFile 35 45)); by_compute.
Defined.

(** [UpdateIndex_fields] in the scenario, for the level-1 file [[10,20]]. *)
Lemma UpdateIndex_fields_witness :
  ∃ fi' index h,
    UpdateIndex zero_unit (FileIndexer_new 3) (Some ex_files) = Some fi' ∧
    vec_at (next_level_index_ fi') 1 = Some index ∧
    vec_at index 0 = Some h ∧
    is_lb 10 [mkFile 5 15; mkFile 18 25; mkFile 35 45] (smallest_lb h) ∧
    is_lb 20 [mkFile 5 15; mkFile 18 25; mkFile 35 45] (largest_lb h) ∧
    is_rb 10 [mkFile 5 15; mkFile 18 25; mkFile 35 45] (smallest_rb h) ∧
    is_rb 20 [mkFile 5 15; mkFile 18 25; mkFile 35 45] (largest_rb h).
Proof.
  destruct (@UpdateIndex_fields Z Z_Comparator Z_Compare_laws zero_unit (FileIndexer_new 3)
              ex_files ex_ready eq_refl) as (fi' & Hrun & Hall).
  destruct (Hall 1 [mkFile 10 20; mkFile 30 40]
              [mkFile 5 15; mkFile 18 25; mkFile 35 45] 0 (mkFile 10 20))
    as (index & h & Hfacts).
  - simpl. lia.
  - reflexivity.
  - reflexivity.
  - reflexivity.
  - exists fi', index, h. split; [exact Hrun|exact Hfacts].
Defined.

(** C3, counterexample.  With one level-1 file [[10,20]] above the only
    level-2 file [[5,15]], the record has [largest_lb = 1], the size of
    level 2, while [level_rb_[2] = 0]. *)
Lemma largest_lb_exceeds_bound :
  levels_sorted above_files = true ∧
  ∃ fi' index h bound,
    UpdateIndex zero_unit (FileIndexer_new 3) (Some above_files) = Some fi' ∧
    vec_at (next_level_index_ fi') 1 = Some index ∧
    vec_at index 0 = Some h ∧
    vec_at (level_rb_ fi') 2 = Some bound ∧
    ¬ (largest_lb h ≤ bound).
Proof.
  split; [reflexivity|].
  exists (mkFileIndexer 3 [[]; [mkIndexUnit 0 1 0 0]; []] [-1; 0; 0]),
    [mkIndexUnit 0 1 0 0], (mkIndexUnit 0 1 0 0), 0.
  repeat split; by_compute.
Qed.

(** [hint_invariants] on [above_files]. *)
Lemma hint_invariants_witness :
  ∃ fi' index h bound,
    UpdateIndex zero_unit (FileIndexer_new 3) (Some above_files) = Some fi' ∧
    vec_at (next_level_index_ fi') 1 = Some index ∧
    vec_at index 0 = Some h ∧
    vec_at (level_rb_ fi') 2 = Some bound ∧
    0 ≤ smallest_lb h ≤ smallest_rb h + 1 ∧
    smallest_rb h ≤ largest_rb h ∧
    largest_lb h ≤ bound + 1.
Proof.
  assert (Hready : build_ready (FileIndexer_new 3) above_files)
    by (repeat split; by_compute).
  destruct (@hint_invariants Z Z_Comparator Z_Compare_laws zero_unit (FileIndexer_new 3)
              above_files Hready eq_refl) as (fi' & Hrun & Hall).
  destruct (Hall 1 [mkFile 10 20] 0 (mkFile 10 20))
    as (index & h & bound & Hindex & Hh & Hbound & H1 & H2 & H3 & _).
  - simpl. lia.
  - reflexivity.
  - reflexivity.
  - exists fi', index, h, bound. repeat split; assumption || apply H1.
Defined.

(** [resolve_postconditions] in the scenario, for a key after the file
    [[30,40]]. *)
Lemma resolve_postconditions_witness :
  ∃ fi' lb rb,
    UpdateIndex zero_unit (FileIndexer_new 3) (Some ex_files) = Some fi' ∧
    GetNextLevelIndex fi' 1 1 1 1 = Some (lb, rb) ∧
    0 ≤ lb ∧ lb ≤ rb + 1 ∧
    ∃ next_bound, vec_at (level_rb_ fi') 2 = Some next_bound ∧ rb ≤ next_bound.
Proof.
  destruct (@resolve_postconditions Z Z_Comparator Z_Compare_laws zero_unit (FileIndexer_new 3)
              ex_files ex_ready eq_refl) as (fi' & Hrun & Hall).
  assert (Hfi : fi' = ex_indexer).
  { change (ex_built = Some fi') in Hrun. rewrite ex_built_indexer in Hrun.
    congruence. }
  destruct (Hall 1 1 1 1 1) as (lb & rb & Hres & H0 & H1 & H2).
  - simpl. lia.
  - rewrite Hfi. reflexivity.
  - lia.
  - exists fi', lb, rb. split; [exact Hrun|]. split; [exact Hres|].
    split; [exact H0|]. split; [exact H1|]. apply H2. simpl. lia.
Defined.

(** C5, counterexample.  In the scenario, for the level-1 file [[10,20]]
    and the key 10, the call returns the range [(0, 0)]: index 1 of level 2
    is not in it. *)
Lemma scenario_first_range_excludes_index_1 :
  ∃ fi', UpdateIndex zero_unit (FileIndexer_new 3) (Some ex_files) = Some fi' ∧
    GetNextLevelIndex fi' 1 0 (Z.sgn (Compare 10 10)) (Z.sgn (Compare 10 20))
      = Some (0, 0) ∧
    ¬ (0 ≤ 1 ≤ 0).
Proof. exists ex_indexer. repeat split; try by_compute. lia. Qed.

(** C5, amended.  In the scenario (3 levels, level 1 = [[10,20]], [[30,40]],
    level 2 = [[5,15]], [[18,25]], [[35,45]]), after a build on a new
    object, whatever the default record is, the call for the file
    [[10,20]] and the key 10 returns [(0, 0)]: index 0 alone, indexes 1 and
    2 left out; the call for the file [[30,40]] and the key 40 returns
    [(2, 2)]: index 2 alone. *)
Theorem scenario_ranges (default_unit : IndexUnit) :
  ∃ fi',
    UpdateIndex default_unit (FileIndexer_new 3) (Some ex_files) = Some fi' ∧
    GetNextLevelIndex fi' 1 0 (Z.sgn (Compare 10 10)) (Z.sgn (Compare 10 20))
      = Some (0, 0) ∧
    GetNextLevelIndex fi' 1 1 (Z.sgn (Compare 40 30)) (Z.sgn (Compare 40 40))
      = Some (2, 2).
Proof. exists ex_indexer. repeat split; by_compute. Qed.

(** [resolve_target_precedes] on [ex_indexer], for the file [[30,40]] and a
    key before it. *)
Lemma resolve_target_precedes_witness :
  GetNextLevelIndex ex_indexer 1 1 (-1) (-1) = Some (1, 1).
Proof.
  apply (proj1 (resolve_target_precedes ex_indexer 1 1 (-1) (-1) 1 2
                  [mkIndexUnit 0 1 0 1; mkIndexUnit 2 2 1 2]
                  (mkIndexUnit 2 2 1 2) (mkIndexUnit 0 1 0 1)
                  ltac:(simpl; lia) ltac:(simpl; lia) eq_refl ltac:(lia)
                  ltac:(lia) eq_refl eq_refl eq_refl ltac:(reflexivity)
                  ltac:(lia))); simpl; lia.
Defined.

(** C7, counterexample.  A build on [ex_files] followed by a build on
    three empty levels: level 1 has no files in the second build and still
    has the two records of the first. *)
Lemma stale_hints_after_empty_rebuild :
  ∃ fi fi',
    UpdateIndex zero_unit (FileIndexer_new 3) (Some ex_files) = Some fi ∧
    UpdateIndex zero_unit fi (Some no_files) = Some fi' ∧
    vec_at no_files 1 = Some [] ∧
    LevelIndexSize fi' 1 = Some 2.
Proof.
  exists ex_indexer, (mkFileIndexer 3 (next_level_index_ ex_indexer) [-1; -1; -1]).
  repeat split; by_compute.
Qed.

(** [UpdateIndex_empty_levels] on a new object: the empty level 1 has no
    records. *)
Lemma UpdateIndex_empty_levels_witness :
  ∃ fi', UpdateIndex zero_unit (FileIndexer_new 3) (Some gap_files) = Some fi' ∧
         LevelIndexSize fi' 1 = Some 0.
Proof.
  assert (Hready : build_ready (FileIndexer_new 3) gap_files)
    by (repeat split; by_compute).
  destruct (UpdateIndex_empty_levels zero_unit (FileIndexer_new 3) gap_files
              Hready) as (fi' & Hrun & Hall).
  destruct (Hall 1 [] ltac:(simpl; lia) eq_refl) as [Hempty _].
  destruct (Hempty eq_refl) as [_ Hsize].
  exists fi'. split; [exact Hrun|]. rewrite Hsize. reflexivity.
Defined.

(** [ClearIndex_frame] on [ex_indexer]. *)
Lemma ClearIndex_frame_witness :
  ∃ fi', ClearIndex ex_indexer = Some fi' ∧
    level_rb_ fi' = [-1; 1; 2] ∧
    vec_at (next_level_index_ fi') 1 = Some [].
Proof.
  destruct (ClearIndex_frame ex_indexer ex_indexer_wf)
    as (fi' & Hrun & _ & Hrb & _ & _ & Hall).
  exists fi'. split; [exact Hrun|]. split; [exact Hrb|].
  apply Hall. simpl. lia.
Defined.

(** [UpdateIndex_overwrites] on [ex_indexer], which holds the records of an
    earlier build. *)
Lemma UpdateIndex_overwrites_witness :
  ∃ fi', UpdateIndex zero_unit ex_indexer (Some above_files) = Some fi' ∧
    vec_at (next_level_index_ fi') 1
      = Some (level_hints [mkFile 10 20] [mkFile 5 15]).
Proof.
  assert (Hready : build_ready ex_indexer above_files)
    by (repeat split; by_compute).
  destruct (UpdateIndex_overwrites zero_unit ex_indexer above_files Hready)
    as (fi' & Hrun & Hall).
  destruct (Hall 1 [mkFile 10 20] [mkFile 5 15] ltac:(simpl; lia) eq_refl
              eq_refl ltac:(discriminate)) as (_ & Hhints & _).
  exists fi'. split; [exact Hrun|exact Hhints].
Defined.

(** * Further properties of the code *)

(** ** Shared lemmas *)

Lemma vec_ext {A} (v w : list A) :
  (∀ i : Z, vec_at v i = vec_at w i) → v = w.
Proof.
  intros Heq. apply list_eq. intros n.
  specialize (Heq (Z.of_nat n)). by rewrite !vec_at_nat in Heq.
Qed.

Lemma vec_at_None {A} (v : list A) (i : Z) :
  i < 0 ∨ vec_size v ≤ i → vec_at v i = None.
Proof.
  unfold vec_at, vec_size. intros Hi.
  destruct (Z.ltb_spec i 0); [done|]. apply lookup_ge_None_2. lia.
Qed.

Lemma vec_store_Some {A} (v v' : list A) (i : Z) x :
  vec_store v i x = Some v' →
  0 ≤ i < vec_size v ∧ v' = <[Z.to_nat i := x]> v.
Proof.
  unfold vec_store, vec_update. intros Hrun.
  destruct (vec_at v i) as [y|] eqn:Hy; [|done]. simpl in Hrun.
  split; [by eapply vec_at_lt|congruence].
Qed.

(** What every iteration keeps, the whole loop keeps. *)
Lemma for_levels_preserve {St} (P : St → Prop) (lo hi : Z)
    (body : Z → St → option St) (s s' : St) :
  P s →
  (∀ l t t', lo ≤ l < hi → P t → body l t = Some t' → P t') →
  for_levels lo hi body s = Some s' → P s'.
Proof.
  intros Hs Hstep. unfold for_levels.
  assert (Hin : ∀ l, l ∈ seqZ lo (hi - lo) → lo ≤ l < hi)
    by (intros l Hl; apply elem_of_seqZ in Hl; lia).
  revert Hin. generalize (seqZ lo (hi - lo)). intros ls. revert s Hs.
  induction ls as [|l ls IH]; intros s Hs Hin Hrun; simpl in Hrun.
  - by simplify_eq.
  - destruct (body l s) as [t|] eqn:Ht.
    + apply (IH t); [|intros; apply Hin; by right|done].
      apply (Hstep l s t); [apply Hin; by left|done..].
    + exfalso. clear -Hrun. induction ls as [|l' ls IH']; simpl in Hrun;
        [done|by apply IH'].
Qed.

(** A loop whose first iteration has no result has none. *)
Lemma for_levels_first_None {St} (lo hi : Z) (body : Z → St → option St)
    (s : St) :
  lo < hi → body lo s = None → for_levels lo hi body s = None.
Proof.
  intros Hlt Hnone. unfold for_levels. rewrite seqZ_cons by lia. simpl.
  rewrite Hnone. generalize (seqZ (Z.succ lo) (Z.pred (hi - lo))).
  intros ls. induction ls as [|l ls IH]; [done|by simpl].
Qed.

Section Frames.
Context {K : Type} `{Comparator K}.
Variable default_unit : IndexUnit.
Implicit Types (files : list (list (FileMetaData K))).

(** One iteration of the level loop writes slot [level] of the two
    vectors and nothing else. *)
Lemma UpdateIndex_level_frame files level fi fi' :
  UpdateIndex_level default_unit files level fi = Some fi' →
  num_levels_ fi' = num_levels_ fi ∧
  vec_size (next_level_index_ fi') = vec_size (next_level_index_ fi) ∧
  vec_size (level_rb_ fi') = vec_size (level_rb_ fi) ∧
  ∀ j, j ≠ level →
    vec_at (next_level_index_ fi') j = vec_at (next_level_index_ fi) j ∧
    vec_at (level_rb_ fi') j = vec_at (level_rb_ fi) j.
Proof.
  unfold UpdateIndex_level. intros Hrun.
  destruct (vec_at files level) as [upper|]; [|done]. simpl in Hrun.
  destruct (vec_at files (level + 1)) as [lower|]; [|done]. simpl in Hrun.
  destruct (vec_store (level_rb_ fi) level _) as [rb|] eqn:Hrb; [|done].
  simpl in Hrun. apply vec_store_Some in Hrb as [Hlevel ->].
  destruct (_ =? 0).
  - simplify_eq. simpl. rewrite vec_size_insert. repeat split; try done.
    apply vec_at_insert_ne; lia.
  - destruct (vec_at (next_level_index_ fi) level) as [old|]; [|done].
    simpl in Hrun.
    destruct (CalculateLB _ _ _ _ _) as [i1|]; [|done]. simpl in Hrun.
    destruct (CalculateLB _ _ _ _ _) as [i2|]; [|done]. simpl in Hrun.
    destruct (CalculateRB _ _ _ _ _) as [i3|]; [|done]. simpl in Hrun.
    destruct (CalculateRB _ _ _ _ _) as [i4|]; [|done]. simpl in Hrun.
    destruct (vec_store (next_level_index_ fi) level i4) as [v|] eqn:Hv;
      [|done].
    simpl in Hrun. apply vec_store_Some in Hv as [_ ->]. simplify_eq. simpl.
    rewrite !vec_size_insert. repeat split; try done;
      apply vec_at_insert_ne; lia.
Qed.

(** What a returning build leaves alone, whatever the file lists are. *)
Lemma UpdateIndex_frame fi files fi' :
  UpdateIndex default_unit fi (Some files) = Some fi' →
  num_levels_ fi' = num_levels_ fi ∧
  vec_size (next_level_index_ fi') = vec_size (next_level_index_ fi) ∧
  vec_size (level_rb_ fi') = vec_size (level_rb_ fi) ∧
  (∀ j, j < 1 ∨ to_uint32 (num_levels_ fi - 1) ≤ j →
     vec_at (next_level_index_ fi') j = vec_at (next_level_index_ fi) j) ∧
  (∀ j, j < 1 ∨ to_uint32 (num_levels_ fi - 1) < j →
     j ≠ to_uint32 (num_levels_ fi - 1) →
     vec_at (level_rb_ fi') j = vec_at (level_rb_ fi) j).
Proof.
  unfold UpdateIndex. set (last := to_uint32 (num_levels_ fi - 1)).
  intros Hrun.
  destruct (for_levels 1 last (UpdateIndex_level default_unit files) fi)
    as [fi1|] eqn:Hloop; [|done].
  simpl in Hrun.
  assert (Hfi1 :
    num_levels_ fi1 = num_levels_ fi ∧
    vec_size (next_level_index_ fi1) = vec_size (next_level_index_ fi) ∧
    vec_size (level_rb_ fi1) = vec_size (level_rb_ fi) ∧
    ∀ j, j < 1 ∨ last ≤ j →
      vec_at (next_level_index_ fi1) j = vec_at (next_level_index_ fi) j ∧
      vec_at (level_rb_ fi1) j = vec_at (level_rb_ fi) j).
  { apply (for_levels_preserve (λ s,
      num_levels_ s = num_levels_ fi ∧
      vec_size (next_level_index_ s) = vec_size (next_level_index_ fi) ∧
      vec_size (level_rb_ s) = vec_size (level_rb_ fi) ∧
      ∀ j, j < 1 ∨ last ≤ j →
        vec_at (next_level_index_ s) j = vec_at (next_level_index_ fi) j ∧
        vec_at (level_rb_ s) j = vec_at (level_rb_ fi) j)
      1 last (UpdateIndex_level default_unit files) fi fi1); [done| |done].
    intros l t t' Hl (H1 & H2 & H3 & H4) Ht.
    apply UpdateIndex_level_frame in Ht as (T1 & T2 & T3 & T4).
    split; [congruence|]. split; [congruence|]. split; [congruence|].
    intros j Hj. destruct (T4 j ltac:(lia)) as [-> ->]. by apply H4. }
  destruct Hfi1 as (H1 & H2 & H3 & H4).
  destruct (vec_at files last) as [last_files|]; [|done]. simpl in Hrun.
  destruct (vec_store (level_rb_ fi1) last _) as [rb|] eqn:Hrb; [|done].
  simpl in Hrun. apply vec_store_Some in Hrb as [Hlast ->]. simplify_eq.
  simpl. rewrite vec_size_insert. repeat split; try done.
  - intros j Hj. by apply H4.
  - intros j Hj Hne. rewrite vec_at_insert_ne by lia. apply H4. lia.
Qed.
End Frames.

(** X1.  At the last level, [level = num_levels_ - 1] in [uint32_t]
    arithmetic and [level > 0], [GetNextLevelIndex] returns [(0, -1)]
    whatever the file index and the comparison results are, on every
    object: it reads neither vector. *)
Theorem resolve_last_level fi level file_index cs cl :
  level = to_uint32 (num_levels_ fi - 1) → 0 < level →
  GetNextLevelIndex fi level file_index cs cl = Some (0, -1).
Proof.
  intros -> Hpos. unfold GetNextLevelIndex.
  destruct (Z.ltb_spec 0 (to_uint32 (num_levels_ fi - 1))); [|lia]. simpl.
  by rewrite Z.eqb_refl.
Qed.

(** [resolve_last_level] on [ex_indexer], level 2. *)
Lemma resolve_last_level_witness :
  GetNextLevelIndex ex_indexer 2 7 1 (-1) = Some (0, -1).
Proof. apply resolve_last_level; by_compute. Defined.

Section BuildFacts.
Context {K : Type} `{Comparator K}.
Variable default_unit : IndexUnit.
Implicit Types (files : list (list (FileMetaData K))).

(** The last statement of [UpdateIndex]. *)
Lemma UpdateIndex_last_bound fi files fi' fs :
  UpdateIndex default_unit fi (Some files) = Some fi' →
  vec_at files (to_uint32 (num_levels_ fi - 1)) = Some fs →
  vec_at (level_rb_ fi') (to_uint32 (num_levels_ fi - 1))
  = Some (to_int32 (to_size_t (vec_size fs - 1))).
Proof.
  unfold UpdateIndex. set (last := to_uint32 (num_levels_ fi - 1)).
  intros Hrun Hfs.
  destruct (for_levels 1 last _ fi) as [fi1|]; [|done]. simpl in Hrun.
  rewrite Hfs in Hrun. simpl in Hrun.
  destruct (vec_store (level_rb_ fi1) last _) as [rb|] eqn:Hrb; [|done].
  simpl in Hrun. apply vec_store_Some in Hrb as [Hlast ->]. simplify_eq.
  simpl. by apply vec_at_insert_eq.
Qed.

(** X2.  Whenever [UpdateIndex] returns, for any object and any file
    lists, it has changed neither the number of levels, nor the sizes of
    the two per-level vectors, nor the hint vectors of level 0 and of the
    last level, nor, unless the last level is level 0, the entry of level 0
    in [level_rb_]. *)
Theorem UpdateIndex_untouched fi files fi' :
  UpdateIndex default_unit fi (Some files) = Some fi' →
  num_levels_ fi' = num_levels_ fi ∧
  NumLevelIndex fi' = NumLevelIndex fi ∧
  vec_size (level_rb_ fi') = vec_size (level_rb_ fi) ∧
  vec_at (next_level_index_ fi') 0 = vec_at (next_level_index_ fi) 0 ∧
  vec_at (next_level_index_ fi') (to_uint32 (num_levels_ fi - 1))
  = vec_at (next_level_index_ fi) (to_uint32 (num_levels_ fi - 1)) ∧
  (to_uint32 (num_levels_ fi - 1) ≠ 0 →
   vec_at (level_rb_ fi') 0 = vec_at (level_rb_ fi) 0).
Proof.
  intros Hrun.
  destruct (UpdateIndex_frame default_unit fi files fi' Hrun)
    as (H1 & H2 & H3 & H4 & H5).
  split; [done|]. split; [unfold NumLevelIndex; by rewrite H2|].
  split; [done|]. split; [apply H4; lia|]. split; [apply H4; lia|].
  intros Hne. apply H5; [lia|done].
Qed.

(** X3.  After a build, for sorted or unsorted file lists, [level_rb_[u]]
    is the file count of level [u] minus one for every level [u >= 1]
    ([-1] for a level without files).  With two levels or more the entry
    of level 0 is left as it was, whatever level 0 holds; with a single
    level it is the file count of level 0 minus one. *)
Theorem UpdateIndex_bounds fi files :
  build_ready fi files →
  ∃ fi', UpdateIndex default_unit fi (Some files) = Some fi' ∧
    (∀ u fs, 1 ≤ u → vec_at files u = Some fs →
       vec_at (level_rb_ fi') u = Some (vec_size fs - 1)) ∧
    (2 ≤ num_levels_ fi →
       vec_at (level_rb_ fi') 0 = vec_at (level_rb_ fi) 0) ∧
    (num_levels_ fi = 1 → ∀ fs, vec_at files 0 = Some fs →
       vec_at (level_rb_ fi') 0 = Some (vec_size fs - 1)).
Proof.
  intros (Hwf & HL & Hfiles & Hfit). pose proof Hwf as (HL' & _ & _).
  destruct (UpdateIndex_built default_unit fi files Hwf HL Hfiles Hfit)
    as (fi' & Hrun & (_ & _ & Hbound & _ & _)).
  exists fi'. split; [done|]. split; [done|].
  pose proof (UpdateIndex_frame default_unit fi files fi' Hrun)
    as (_ & _ & _ & _ & Hrb).
  rewrite to_uint32_small in Hrb by lia. split.
  - intros H2. apply Hrb; lia.
  - intros H1 fs Hfs.
    pose proof (UpdateIndex_last_bound fi files fi' fs Hrun) as Hlast.
    rewrite to_uint32_small, H1 in Hlast by lia.
    change (1 - 1) with 0 in Hlast. rewrite (Hlast Hfs). f_equal. apply size_minus_one.
    by apply (sizes_fit_at files 0 fs).
Qed.

(** X4.  A second build on the same file lists changes nothing: the object
    after the first build is the object after the second. *)
Theorem UpdateIndex_idempotent fi files fi' :
  build_ready fi files →
  UpdateIndex default_unit fi (Some files) = Some fi' →
  UpdateIndex default_unit fi' (Some files) = Some fi'.
Proof.
  intros (Hwf & HL & Hfiles & Hfit) Hrun. pose proof Hwf as (HL' & _ & _).
  destruct (UpdateIndex_built default_unit fi files Hwf HL Hfiles Hfit)
    as (fi1 & Hrun1 & Hb1).
  assert (fi1 = fi') as -> by congruence. clear Hrun1.
  destruct Hb1 as (B1 & Bwf & Bbound & Bhints & Bkeep).
  destruct (UpdateIndex_built default_unit fi' files Bwf
              ltac:(lia) ltac:(lia) Hfit)
    as (fi2 & Hrun2 & (C1 & Cwf & Cbound & Chints & Ckeep)).
  rewrite Hrun2. f_equal.
  pose proof Bwf as (_ & Bn & Br). pose proof Cwf as (_ & Cn & Cr).
  assert (Hnext : next_level_index_ fi2 = next_level_index_ fi').
  { apply vec_ext. intros u.
    destruct (decide (1 ≤ u ≤ num_levels_ fi - 2)) as [Hu|Hu].
    - destruct (vec_at_is_Some files u) as [upper Hup]; [lia|].
      destruct (vec_at_is_Some files (u + 1)) as [lower Hlow]; [lia|].
      destruct (decide (upper = [])) as [->|Hne].
      + apply Ckeep. by right; right.
      + rewrite (Chints u upper lower) by (done || lia).
        by rewrite (Bhints u upper lower).
    - apply Ckeep. lia. }
  assert (Hrb : level_rb_ fi2 = level_rb_ fi').
  { apply vec_ext. intros u.
    destruct (decide (1 ≤ u < num_levels_ fi)) as [Hu|Hu].
    - destruct (vec_at_is_Some files u) as [fs Hfs]; [lia|].
      rewrite (Cbound u fs) by (done || lia).
      by rewrite (Bbound u fs) by (done || lia).
    - destruct (decide (u = 0)) as [->|Hne];
        [|rewrite !vec_at_None by lia; done].
      pose proof (UpdateIndex_frame default_unit fi' files fi2 Hrun2)
        as (_ & _ & _ & _ & Hkeep0).
      rewrite B1, to_uint32_small in Hkeep0 by lia.
      destruct (decide (num_levels_ fi = 1)) as [H1|H1]; [|apply Hkeep0; lia].
      destruct (vec_at_is_Some files 0) as [fs Hfs]; [lia|].
      pose proof (UpdateIndex_last_bound fi files fi' fs Hrun) as L1.
      pose proof (UpdateIndex_last_bound fi' files fi2 fs Hrun2) as L2.
      rewrite B1 in L2. rewrite to_uint32_small, H1 in L1, L2 by lia.
      change (1 - 1) with 0 in L1, L2. by rewrite L1, L2. }
  destruct fi2, fi'. simpl in *. congruence.
Qed.
End BuildFacts.

(** [UpdateIndex_untouched] on the build of [above_files] over
    [ex_indexer]. *)
Lemma UpdateIndex_untouched_witness :
  vec_at (level_rb_ above_indexer) 0 = vec_at (level_rb_ ex_indexer) 0.
Proof.
  assert (Hrun : UpdateIndex zero_unit ex_indexer (Some above_files)
                 = Some above_indexer) by reflexivity.
  apply (UpdateIndex_untouched zero_unit ex_indexer above_files above_indexer
           Hrun).
  by_compute.
Defined.

(** [UpdateIndex_bounds] on a new object and [top_files]: level 0 holds a
    file and its entry stays [-1]. *)
Lemma UpdateIndex_bounds_witness :
  ∃ fi', UpdateIndex zero_unit (FileIndexer_new 3) (Some top_files) = Some fi' ∧
    vec_at (level_rb_ fi') 1 = Some 1 ∧
    vec_at (level_rb_ fi') 2 = Some (-1) ∧
    vec_at (level_rb_ fi') 0 = Some (-1).
Proof.
  assert (Hready : build_ready (FileIndexer_new 3) top_files)
    by (repeat split; by_compute).
  destruct (UpdateIndex_bounds zero_unit (FileIndexer_new 3) top_files Hready)
    as (fi' & Hrun & Hb & H0 & _).
  exists fi'. split; [exact Hrun|].
  split; [exact (Hb 1 _ ltac:(lia) eq_refl)|].
  split; [exact (Hb 2 _ ltac:(lia) eq_refl)|].
  rewrite H0 by (simpl; lia). reflexivity.
Defined.

(** [UpdateIndex_idempotent] on the scenario. *)
Lemma UpdateIndex_idempotent_witness :
  UpdateIndex zero_unit ex_indexer (Some ex_files) = Some ex_indexer.
Proof.
  apply (UpdateIndex_idempotent zero_unit (FileIndexer_new 3) ex_files
           ex_indexer ex_ready).
  reflexivity.
Defined.

Section Protocol.
Context {K : Type} `{Comparator K}.
Variable default_unit : IndexUnit.
Implicit Types (files : list (list (FileMetaData K))).

(** A build on an object without hint records. *)
Lemma build_on_cleared fi files :
  build_ready fi files →
  (∀ u, 1 ≤ u < num_levels_ fi → vec_at (next_level_index_ fi) u = Some []) →
  ∃ fi', UpdateIndex default_unit fi (Some files) = Some fi' ∧
    (∀ u fs, 1 ≤ u ≤ num_levels_ fi - 2 → vec_at files u = Some fs →
       LevelIndexSize fi' u = Some (vec_size fs)) ∧
    (2 ≤ num_levels_ fi → LevelIndexSize fi' (num_levels_ fi - 1) = Some 0) ∧
    vec_at (next_level_index_ fi') 0 = vec_at (next_level_index_ fi) 0.
Proof.
  intros (Hwf & HL & Hfiles & Hfit) Hclear.
  destruct (UpdateIndex_built default_unit fi files Hwf HL Hfiles Hfit)
    as (fi' & Hrun & (_ & _ & _ & Hhints & Hkeep)).
  exists fi'. split; [done|]. split; [|split].
  - intros u fs Hu Hfs. unfold LevelIndexSize.
    destruct (decide (fs = [])) as [->|Hne].
    + rewrite (Hkeep u) by (by right; right). by rewrite Hclear by lia.
    + destruct (vec_at_is_Some files (u + 1)) as [lower Hlow]; [lia|].
      rewrite (Hhints u fs lower Hu Hfs Hlow Hne). simpl.
      unfold vec_size at 1. rewrite level_hints_length.
      pose proof (sizes_fit_at _ _ _ Hfit Hfs). fold (vec_size fs).
      by rewrite to_uint32_small by lia.
  - intros H2. unfold LevelIndexSize.
    rewrite (Hkeep (num_levels_ fi - 1)) by lia. by rewrite Hclear by lia.
  - apply Hkeep. lia.
Qed.

(** X5.  [ClearIndex] followed by [UpdateIndex]: every indexed level has
    one hint record per file of the level, none when the level is empty,
    whatever records the object held before, and the last level has
    none. *)
Theorem ClearIndex_then_UpdateIndex fi files :
  build_ready fi files →
  ∃ fc fi', ClearIndex fi = Some fc ∧
    UpdateIndex default_unit fc (Some files) = Some fi' ∧
    (∀ u fs, 1 ≤ u ≤ num_levels_ fi - 2 → vec_at files u = Some fs →
       LevelIndexSize fi' u = Some (vec_size fs)) ∧
    (2 ≤ num_levels_ fi → LevelIndexSize fi' (num_levels_ fi - 1) = Some 0).
Proof.
  intros (Hwf & HL & Hfiles & Hfit).
  destruct (ClearIndex_run fi Hwf) as (fc & Hclear & C1 & C2 & C3 & _ & C5).
  assert (Hwfc : wf fc) by (by apply (ClearIndex_wf fi)).
  destruct (build_on_cleared fc files) as (fi' & Hrun & Hcount & Hlast & _).
  { repeat split; try apply Hwfc; rewrite ?C1; done. }
  { intros u Hu. apply C5. lia. }
  exists fc, fi'. rewrite C1 in Hcount, Hlast. done.
Qed.

(** X6.  The first build on a new object with [L] levels: the object still
    reports [L] level slots, every indexed level has one hint record per
    file, level 0 and the last level have none, and with two levels or
    more the bound of level 0 stays at the constructor's [-1]. *)
Theorem first_build (L : Z) files :
  1 ≤ L < 2 ^ 32 → vec_size files = L → sizes_fit files = true →
  ∃ fi', UpdateIndex default_unit (FileIndexer_new L) (Some files) = Some fi' ∧
    NumLevelIndex fi' = L ∧
    (∀ u fs, 1 ≤ u ≤ L - 2 → vec_at files u = Some fs →
       LevelIndexSize fi' u = Some (vec_size fs)) ∧
    LevelIndexSize fi' 0 = Some 0 ∧
    (2 ≤ L → LevelIndexSize fi' (L - 1) = Some 0 ∧
             vec_at (level_rb_ fi') 0 = Some (-1)).
Proof.
  intros HL Hfiles Hfit.
  assert (Hwf : wf (FileIndexer_new L)) by (apply wf_new; lia).
  assert (Hnew : ∀ u, 0 ≤ u < L →
    vec_at (next_level_index_ (FileIndexer_new L)) u = Some []).
  { intros u Hu. apply vec_at_Some. split; [lia|].
    apply lookup_replicate_2. lia. }
  destruct (build_on_cleared (FileIndexer_new L) files)
    as (fi' & Hrun & Hcount & Hlast & Hzero).
  { repeat split; try apply Hwf; simpl; done || lia. }
  { intros u Hu. apply Hnew. simpl in Hu. lia. }
  exists fi'. split; [done|].
  pose proof (UpdateIndex_frame default_unit _ files fi' Hrun)
    as (_ & Hsz & _ & _ & Hrb).
  split; [|split; [done|split; [|split]]].
  - unfold NumLevelIndex. rewrite Hsz. destruct Hwf as (_ & -> & _).
    simpl. apply to_uint32_small. lia.
  - unfold LevelIndexSize. rewrite Hzero, Hnew by lia. done.
  - by apply Hlast.
  - simpl in Hrb. rewrite to_uint32_small in Hrb by lia.
    rewrite Hrb by lia. apply vec_at_Some. split; [lia|].
    apply lookup_replicate_2. lia.
Qed.


(** X8.  An object constructed with zero levels cannot be built: the loop
    bound [num_levels_ - 1] wraps around to [2^32 - 1], and the first
    iteration writes [level_rb_[1]] of an empty vector.  The model has no
    result for any file lists. *)
Theorem UpdateIndex_zero_levels fi files :
  wf fi → num_levels_ fi = 0 →
  UpdateIndex default_unit fi (Some files) = None.
Proof.
  intros (_ & _ & Hrb) H0. unfold UpdateIndex. rewrite H0.
  rewrite for_levels_first_None; [done|by_compute|].
  unfold UpdateIndex_level.
  destruct (vec_at files 1) as [upper|]; [|done]. simpl.
  destruct (vec_at files (1 + 1)) as [lower|]; [|done]. simpl.
  unfold vec_store, vec_update.
  by rewrite (vec_at_None (level_rb_ fi) 1) by lia.
Qed.
End Protocol.


(** X10.  [ClearIndex] on a cleared object changes nothing. *)
Theorem ClearIndex_idempotent fi fc :
  wf fi → ClearIndex fi = Some fc → ClearIndex fc = Some fc.
Proof.
  intros Hwf Hclear. pose proof Hwf as (HL & Hn & Hr).
  destruct (ClearIndex_run fi Hwf) as (x & Hx & C1 & C2 & C3 & C4 & C5).
  assert (x = fc) as -> by congruence. clear Hx.
  assert (Hwfc : wf fc) by (by apply (ClearIndex_wf fi)).
  destruct (ClearIndex_run fc Hwfc) as (y & Hy & D1 & D2 & D3 & D4 & D5).
  rewrite Hy. f_equal.
  assert (Hnext : next_level_index_ y = next_level_index_ fc).
  { apply vec_ext. intros u.
    destruct (decide (1 ≤ u < num_levels_ fi)) as [Hu|Hu].
    - rewrite D5, C5 by lia. done.
    - destruct (decide (u = 0)) as [->|Hne]; [done|].
      rewrite !vec_at_None by lia. done. }
  destruct y, fc. simpl in *. congruence.
Qed.

(** [ClearIndex_then_UpdateIndex] on [ex_indexer] and [gap_files]: the
    empty level 1 ends with no records. *)
Lemma ClearIndex_then_UpdateIndex_witness :
  ∃ fc fi', ClearIndex ex_indexer = Some fc ∧
    UpdateIndex zero_unit fc (Some gap_files) = Some fi' ∧
    LevelIndexSize fi' 1 = Some 0.
Proof.
  assert (Hready : build_ready ex_indexer gap_files)
    by (repeat split; by_compute).
  destruct (ClearIndex_then_UpdateIndex zero_unit ex_indexer gap_files Hready)
    as (fc & fi' & Hclear & Hrun & Hcount & _).
  exists fc, fi'. split; [exact Hclear|]. split; [exact Hrun|].
  exact (Hcount 1 [] ltac:(simpl; lia) eq_refl).
Defined.

(** [first_build] on [top_files]. *)
Lemma first_build_witness :
  ∃ fi', UpdateIndex zero_unit (FileIndexer_new 3) (Some top_files) = Some fi' ∧
    NumLevelIndex fi' = 3 ∧ LevelIndexSize fi' 1 = Some 2 ∧
    vec_at (level_rb_ fi') 0 = Some (-1).
Proof.
  destruct (first_build zero_unit 3 top_files ltac:(lia) eq_refl eq_refl)
    as (fi' & Hrun & Hn & Hcount & _ & Hlast).
  exists fi'. split; [exact Hrun|]. split; [exact Hn|].
  split; [exact (Hcount 1 _ ltac:(lia) eq_refl)|].
  apply Hlast. lia.
Defined.


(** [UpdateIndex_zero_levels] on a new object without levels. *)
Lemma UpdateIndex_zero_levels_witness :
  UpdateIndex zero_unit (FileIndexer_new 0) (Some ex_files) = None.
Proof.
  apply UpdateIndex_zero_levels; [repeat split; by_compute|reflexivity].
Defined.


(** [ClearIndex_idempotent] on [ex_indexer]. *)
Lemma ClearIndex_idempotent_witness :
  ClearIndex (mkFileIndexer 3 [[]; []; []] [-1; 1; 2])
  = Some (mkFileIndexer 3 [[]; []; []] [-1; 1; 2]).
Proof.
  apply (ClearIndex_idempotent ex_indexer _ ex_indexer_wf). reflexivity.
Defined.

(** ** The values of a pass, whatever the order of the files *)

Lemma scan_bounds {F} (cmp_op : F → F → Z) us ls p i v :
  scan cmp_op us ls p !! i = Some v → (p ≤ v ≤ p + length ls)%nat.
Proof.
  revert ls p i. induction us as [|u us IHus]; intros ls p i Hv; [done|].
  revert p i Hv. induction ls as [|l ls IHls]; intros p i Hv.
  - rewrite scan_nil_r in Hv. destruct i as [|i]; simplify_eq/=; [lia|].
    apply IHus in Hv. simpl in Hv. lia.
  - rewrite scan_cons in Hv. destruct (cmp_op u l =? 0).
    + destruct i as [|i]; simplify_eq/=; [lia|]. apply IHus in Hv. lia.
    + destruct (0 <? cmp_op u l).
      * apply IHls in Hv. simpl. lia.
      * destruct i as [|i]; simplify_eq/=; [lia|]. apply IHus in Hv.
        simpl in Hv. lia.
Qed.

(** The cursor over the lower list never goes back. *)
Lemma scan_mono {F} (cmp_op : F → F → Z) us ls p i j a b :
  (i ≤ j)%nat → scan cmp_op us ls p !! i = Some a →
  scan cmp_op us ls p !! j = Some b → (a ≤ b)%nat.
Proof.
  revert ls p i j. induction us as [|u us IHus]; intros ls p i j Hij Ha Hb;
    [done|].
  assert (Hcons : ∀ ls' p', (p ≤ p')%nat →
    (p :: scan cmp_op us ls' p') !! i = Some a →
    (p :: scan cmp_op us ls' p') !! j = Some b → (a ≤ b)%nat).
  { intros ls' p' Hp Ha' Hb'. destruct i as [|i], j as [|j]; simplify_eq/=.
    - lia.
    - apply scan_bounds in Hb'. lia.
    - lia.
    - apply (IHus ls' p' i j); [lia|done..]. }
  revert p Hcons Ha Hb. induction ls as [|l ls IHls]; intros p Hcons Ha Hb.
  - rewrite scan_nil_r in Ha, Hb. by apply (Hcons [] p).
  - rewrite scan_cons in Ha, Hb. destruct (cmp_op u l =? 0).
    + apply (Hcons ls (S p)); [lia|done..].
    + destruct (0 <? cmp_op u l).
      * apply (IHls (S p)); [|done..].
        intros ls' p' Hp Ha' Hb'.
        destruct i as [|i], j as [|j]; simplify_eq/=.
        -- lia.
        -- apply scan_bounds in Hb'. lia.
        -- lia.
        -- apply (IHus ls' p' i j); [lia|done..].
      * apply (Hcons (l :: ls) p); [lia|done..].
Qed.

Lemma LB_vals_range {F} (cmp_op : F → F → Z) upper lower i v :
  vec_at (LB_vals cmp_op upper lower) i = Some v → 0 ≤ v ≤ vec_size lower.
Proof.
  rewrite vec_at_Some. unfold LB_vals. rewrite list_lookup_fmap.
  intros [_ Hv].
  destruct (scan cmp_op upper lower 0 !! Z.to_nat i) as [p|] eqn:Hp; [|done].
  apply scan_bounds in Hp. simplify_eq/=. unfold vec_size. lia.
Qed.

Lemma LB_vals_mono {F} (cmp_op : F → F → Z) upper lower i j a b :
  i ≤ j → vec_at (LB_vals cmp_op upper lower) i = Some a →
  vec_at (LB_vals cmp_op upper lower) j = Some b → a ≤ b.
Proof.
  rewrite !vec_at_Some. unfold LB_vals. rewrite !list_lookup_fmap.
  intros Hij [Hi Ha] [Hj Hb].
  destruct (scan cmp_op upper lower 0 !! Z.to_nat i) as [p|] eqn:Hp; [|done].
  destruct (scan cmp_op upper lower 0 !! Z.to_nat j) as [q|] eqn:Hq; [|done].
  simplify_eq/=.
  assert (Z.to_nat i ≤ Z.to_nat j)%nat as Hle by lia.
  pose proof (scan_mono _ _ _ _ _ _ _ _ Hle Hp Hq). lia.
Qed.

Lemma RB_vals_lookup {F} (cmp_op : F → F → Z) upper lower i v :
  vec_at (RB_vals cmp_op upper lower) i = Some v →
  0 ≤ i < vec_size upper ∧
  ∃ p, scan (λ a b, - cmp_op a b) (reverse upper) (reverse lower) 0
         !! (length upper - S (Z.to_nat i))%nat = Some p ∧
       v = from_end lower p.
Proof.
  intros Hv. pose proof (vec_at_lt _ _ _ Hv) as Hi.
  unfold vec_size in Hi. rewrite RB_vals_length in Hi.
  apply vec_at_Some in Hv as [_ Hv]. unfold RB_vals in Hv.
  rewrite reverse_lookup in Hv
    by (rewrite length_fmap, scan_length, length_reverse; lia).
  rewrite length_fmap, scan_length, length_reverse, list_lookup_fmap in Hv.
  split; [unfold vec_size; lia|].
  destruct (scan _ _ _ _ !! _) as [p|] eqn:Hp; [|done].
  exists p. split; [done|]. by simplify_eq/=.
Qed.

Lemma RB_vals_range {F} (cmp_op : F → F → Z) upper lower i v :
  vec_at (RB_vals cmp_op upper lower) i = Some v → -1 ≤ v < vec_size lower.
Proof.
  intros Hv. apply RB_vals_lookup in Hv as (_ & p & Hp & ->).
  apply scan_bounds in Hp. rewrite length_reverse in Hp.
  unfold from_end, vec_size. lia.
Qed.

Lemma RB_vals_mono {F} (cmp_op : F → F → Z) upper lower i j a b :
  i ≤ j → vec_at (RB_vals cmp_op upper lower) i = Some a →
  vec_at (RB_vals cmp_op upper lower) j = Some b → a ≤ b.
Proof.
  intros Hij Ha Hb.
  apply RB_vals_lookup in Ha as (Hi & p & Hp & ->).
  apply RB_vals_lookup in Hb as (Hj & q & Hq & ->).
  unfold vec_size in Hi, Hj.
  assert (length upper - S (Z.to_nat j) ≤ length upper - S (Z.to_nat i))%nat
    as Hle by lia.
  pose proof (scan_mono _ _ _ _ _ _ _ _ Hle Hq Hp).
  unfold from_end. lia.
Qed.

Section AnyOrder.
Context {K : Type} `{Comparator K}.
Variable default_unit : IndexUnit.
Implicit Types (files : list (list (FileMetaData K))).
Implicit Types (upper lower : list (FileMetaData K)).

(** A record of [level_hints] holds the values of the four passes at its
    index. *)
Lemma level_hints_fields upper lower i h :
  vec_at (level_hints upper lower) i = Some h →
  vec_at (LB_vals cmp_smallest_largest upper lower) i = Some (smallest_lb h) ∧
  vec_at (LB_vals cmp_largest_largest upper lower) i = Some (largest_lb h) ∧
  vec_at (RB_vals cmp_smallest_smallest upper lower) i = Some (smallest_rb h) ∧
  vec_at (RB_vals cmp_largest_smallest upper lower) i = Some (largest_rb h).
Proof.
  intros Hh. apply vec_at_Some in Hh as [Hi Hh].
  unfold level_hints in Hh. rewrite list_lookup_fmap in Hh.
  destruct (seq 0 (length upper) !! Z.to_nat i) as [k|] eqn:Hk; [|done].
  apply lookup_seq in Hk as [-> Hlt]. simpl in Hh. simplify_eq. simpl.
  rewrite !vec_at_Some.
  repeat split; try done; apply list_lookup_lookup_total_lt;
    rewrite ?LB_vals_length, ?RB_vals_length; done.
Qed.

(** The records of an indexed level with files after a build. *)
Lemma built_level fi files u upper lower :
  build_ready fi files → 1 ≤ u ≤ num_levels_ fi - 2 →
  vec_at files u = Some upper → vec_at files (u + 1) = Some lower →
  upper ≠ [] →
  ∃ fi', UpdateIndex default_unit fi (Some files) = Some fi' ∧
    vec_at (next_level_index_ fi') u = Some (level_hints upper lower) ∧
    vec_at (level_rb_ fi') u = Some (vec_size upper - 1) ∧
    vec_at (level_rb_ fi') (u + 1) = Some (vec_size lower - 1) ∧
    0 ≤ num_levels_ fi' < 2 ^ 32 ∧ num_levels_ fi' = num_levels_ fi.
Proof.
  intros (Hwf & HL & Hfiles & Hfit) Hu Hup Hlow Hne.
  destruct (UpdateIndex_built default_unit fi files Hwf HL Hfiles Hfit)
    as (fi' & Hrun & (B1 & (BL & _) & Bbound & Bhints & _)).
  exists fi'. split; [done|]. split; [by apply Bhints|].
  split; [apply Bbound; [lia|done]|]. split; [apply Bbound; [lia|done]|].
  done.
Qed.

(** X11.  After a build, sorted or not, every record of an indexed level
    holds offsets of the next level or the two sentinels: the [lb] fields
    lie in [0 .. size] and the [rb] fields in [-1 .. size - 1], where
    [size] is the file count of the next level. *)
Theorem hint_fields_in_range fi files :
  build_ready fi files →
  ∃ fi', UpdateIndex default_unit fi (Some files) = Some fi' ∧
    ∀ u upper lower i,
      1 ≤ u ≤ num_levels_ fi - 2 →
      vec_at files u = Some upper → vec_at files (u + 1) = Some lower →
      0 ≤ i < vec_size upper →
      ∃ index h,
        vec_at (next_level_index_ fi') u = Some index ∧
        vec_at index i = Some h ∧
        0 ≤ smallest_lb h ≤ vec_size lower ∧
        0 ≤ largest_lb h ≤ vec_size lower ∧
        -1 ≤ smallest_rb h < vec_size lower ∧
        -1 ≤ largest_rb h < vec_size lower.
Proof.
  intros Hready.
  destruct (build_ready_built default_unit fi files Hready)
    as (fi' & Hrun & _).
  exists fi'. split; [done|]. intros u upper lower i Hu Hup Hlow Hi.
  assert (Hne : upper ≠ []) by (intros ->; unfold vec_size in Hi; simpl in Hi; lia).
  destruct (built_level fi files u upper lower Hready Hu Hup Hlow Hne)
    as (fi2 & Hrun2 & Hindex & _).
  assert (fi2 = fi') as -> by congruence.
  destruct (vec_at_is_Some (level_hints upper lower) i) as [h Hh].
  { unfold vec_size. rewrite level_hints_length. exact Hi. }
  exists (level_hints upper lower), h. split; [done|]. split; [done|].
  destruct (level_hints_fields upper lower i h Hh) as (F1 & F2 & F3 & F4).
  split; [by eapply LB_vals_range|]. split; [by eapply LB_vals_range|].
  split; by eapply RB_vals_range.
Qed.

(** X12.  After a build, sorted or not, the four fields do not decrease
    along an indexed level: the cursors of the passes move one way. *)
Theorem hint_fields_monotone fi files :
  build_ready fi files →
  ∃ fi', UpdateIndex default_unit fi (Some files) = Some fi' ∧
    ∀ u upper index i i' h h',
      1 ≤ u ≤ num_levels_ fi - 2 →
      vec_at files u = Some upper → upper ≠ [] →
      vec_at (next_level_index_ fi') u = Some index →
      i ≤ i' → vec_at index i = Some h → vec_at index i' = Some h' →
      smallest_lb h ≤ smallest_lb h' ∧ largest_lb h ≤ largest_lb h' ∧
      smallest_rb h ≤ smallest_rb h' ∧ largest_rb h ≤ largest_rb h'.
Proof.
  intros Hready.
  destruct (build_ready_built default_unit fi files Hready)
    as (fi' & Hrun & _).
  exists fi'. split; [done|].
  intros u upper index i i' h h' Hu Hup Hne Hindex Hii Hh Hh'.
  pose proof Hready as (_ & _ & Hfiles & _).
  destruct (vec_at_is_Some files (u + 1)) as [lower Hlow]; [lia|].
  destruct (built_level fi files u upper lower Hready Hu Hup Hlow Hne)
    as (fi2 & Hrun2 & Hindex2 & _).
  assert (fi2 = fi') as -> by congruence.
  assert (index = level_hints upper lower) as -> by congruence.
  destruct (level_hints_fields upper lower i h Hh) as (F1 & F2 & F3 & F4).
  destruct (level_hints_fields upper lower i' h' Hh') as (G1 & G2 & G3 & G4).
  split; [by eapply LB_vals_mono|]. split; [by eapply LB_vals_mono|].
  split; by eapply RB_vals_mono.
Qed.

(** X13.  When the next level has no files, [GetNextLevelIndex] returns the
    empty range [(0, -1)] for every file of the level and every pair of
    comparison results, for sorted or unsorted files. *)
Theorem resolve_over_empty_level fi files :
  build_ready fi files →
  ∃ fi', UpdateIndex default_unit fi (Some files) = Some fi' ∧
    ∀ u upper i cs cl,
      1 ≤ u ≤ num_levels_ fi - 2 →
      vec_at files u = Some upper → vec_at files (u + 1) = Some [] →
      0 ≤ i < vec_size upper →
      GetNextLevelIndex fi' u i cs cl = Some (0, -1).
Proof.
  intros Hready.
  destruct (build_ready_built default_unit fi files Hready)
    as (fi' & Hrun & _).
  exists fi'. split; [done|]. intros u upper i cs cl Hu Hup Hlow Hi.
  assert (Hne : upper ≠ []) by (intros ->; unfold vec_size in Hi; simpl in Hi; lia).
  destruct (built_level fi files u upper [] Hready Hu Hup Hlow Hne)
    as (fi2 & Hrun2 & Hindex & Hrbl & Hrbn & HL & HLeq).
  assert (fi2 = fi') as -> by congruence.
  pose proof Hready as (_ & _ & _ & Hfit).
  pose proof (sizes_fit_at _ _ _ Hfit Hup) as Hn.
  assert (Hrec : ∀ k, 0 ≤ k < vec_size upper →
    ∃ h, vec_at (level_hints upper []) k = Some h ∧
         smallest_lb h = 0 ∧ largest_lb h = 0 ∧
         smallest_rb h = -1 ∧ largest_rb h = -1).
  { intros k Hk. destruct (vec_at_is_Some (level_hints upper []) k) as [h Hh].
    { unfold vec_size. rewrite level_hints_length. exact Hk. }
    exists h. split; [done|].
    destruct (level_hints_fields upper [] k h Hh) as (F1 & F2 & F3 & F4).
    apply LB_vals_range in F1, F2. apply RB_vals_range in F3, F4.
    unfold vec_size in F1, F2, F3, F4. simpl in *. lia. }
  destruct (Hrec i Hi) as (h & Hh & H1 & H2 & H3 & H4).
  assert (Hprev : ∃ hp, largest_lb hp = 0 ∧
            (0 < i → vec_at (level_hints upper []) (i - 1) = Some hp)).
  { destruct (decide (0 < i)) as [Hpos|Hzero].
    - destruct (Hrec (i - 1) ltac:(lia)) as (hp & Hhp & _ & Hp & _).
      by exists hp.
    - exists h. split; [done|lia]. }
  destruct Hprev as (hp & Hp0 & Hhp).
  rewrite (GetNextLevelIndex_cases fi' u i cs cl (vec_size upper - 1)
             (vec_size (@nil (FileMetaData K)) - 1) (level_hints upper []) h hp)
    by (done || lia).
  rewrite H1, H2, H3, H4, Hp0. unfold vec_size. simpl.
  by destruct (cs <? 0), (cs =? 0), (cl <? 0), (cl =? 0), (0 <? i).
Qed.
End AnyOrder.

(** [hint_fields_in_range] on the unsorted [mixed_files]. *)
Lemma hint_fields_in_range_witness :
  ∃ fi' index h,
    UpdateIndex zero_unit (FileIndexer_new 3) (Some mixed_files) = Some fi' ∧
    vec_at (next_level_index_ fi') 1 = Some index ∧
    vec_at index 0 = Some h ∧
    0 ≤ largest_lb h ≤ 2 ∧ -1 ≤ smallest_rb h < 2.
Proof.
  assert (Hready : build_ready (FileIndexer_new 3) mixed_files)
    by (repeat split; by_compute).
  destruct (hint_fields_in_range zero_unit (FileIndexer_new 3) mixed_files
              Hready) as (fi' & Hrun & Hall).
  destruct (Hall 1 [mkFile 30 40; mkFile 10 20] [mkFile 5 15; mkFile 18 25] 0
              ltac:(simpl; lia) eq_refl eq_refl ltac:(by_compute || (unfold vec_size; simpl; lia)))
    as (index & h & Hindex & Hh & _ & H2 & H3 & _).
  exists fi', index, h. split; [exact Hrun|]. split; [exact Hindex|].
  split; [exact Hh|]. split; [exact H2|exact H3].
Defined.

(** [hint_fields_monotone] on the unsorted [mixed_files]. *)
Lemma hint_fields_monotone_witness :
  ∃ fi' index h h',
    UpdateIndex zero_unit (FileIndexer_new 3) (Some mixed_files) = Some fi' ∧
    vec_at (next_level_index_ fi') 1 = Some index ∧
    vec_at index 0 = Some h ∧ vec_at index 1 = Some h' ∧
    smallest_lb h ≤ smallest_lb h' ∧ largest_rb h ≤ largest_rb h'.
Proof.
  assert (Hready : build_ready (FileIndexer_new 3) mixed_files)
    by (repeat split; by_compute).
  destruct (hint_fields_monotone zero_unit (FileIndexer_new 3) mixed_files
              Hready) as (fi' & Hrun & Hall).
  assert (Hfi : ∃ index h h', vec_at (next_level_index_ fi') 1 = Some index ∧
            vec_at index 0 = Some h ∧ vec_at index 1 = Some h').
  { vm_compute in Hrun. injection Hrun as <-.
    eexists _, _, _. repeat split; reflexivity. }
  destruct Hfi as (index & h & h' & Hindex & Hh & Hh').
  destruct (Hall 1 [mkFile 30 40; mkFile 10 20] index 0 1 h h'
              ltac:(simpl; lia) eq_refl ltac:(discriminate) Hindex
              ltac:(lia) Hh Hh') as (M1 & _ & _ & M4).
  exists fi', index, h, h'. split; [exact Hrun|]. split; [exact Hindex|].
  split; [exact Hh|]. split; [exact Hh'|]. split; [exact M1|exact M4].
Defined.

(** [resolve_over_empty_level] on [top_files]: level 2 is empty. *)
Lemma resolve_over_empty_level_witness :
  ∃ fi', UpdateIndex zero_unit (FileIndexer_new 3) (Some top_files) = Some fi' ∧
    GetNextLevelIndex fi' 1 1 (-1) (-1) = Some (0, -1).
Proof.
  assert (Hready : build_ready (FileIndexer_new 3) top_files)
    by (repeat split; by_compute).
  destruct (resolve_over_empty_level zero_unit (FileIndexer_new 3) top_files
              Hready) as (fi' & Hrun & Hall).
  exists fi'. split; [exact Hrun|].
  apply (Hall 1 [mkFile 10 20; mkFile 30 40] 1 (-1) (-1));
    [simpl; lia|reflexivity|reflexivity|unfold vec_size; simpl; lia].
Defined.

(** ** How tight the returned range is *)

Section Tight.
Context {K : Type} `{ComparatorLaws K}.
Variable default_unit : IndexUnit.
Implicit Types (k : K) (files : list (list (FileMetaData K))).
Implicit Types (upper lower : list (FileMetaData K)).

(** In a sorted level every file from the left bound of a key on ends at
    or after the key. *)
Lemma lb_reaches k lower a j g :
  files_sorted lower = true → is_lb k lower a →
  vec_at lower j = Some g → a ≤ j → key_le k (largest g).
Proof.
  intros Hs (Ha & _ & Hat) Hg Haj.
  pose proof (vec_at_lt _ _ _ Hg) as Hj.
  destruct (vec_at_is_Some lower a) as [ga Hga]; [lia|].
  pose proof (Hat ga Hga) as Hk.
  destruct (decide (a = j)) as [->|Hne]; [by simplify_eq|].
  apply vec_at_Some in Hga as [_ Hga]. apply vec_at_Some in Hg as [_ Hg].
  eapply key_le_trans; [exact Hk|]. apply key_lt_le.
  eapply sorted_largest_lt; [exact Hs|exact Hga|exact Hg|lia].
Qed.

(** And every file up to the right bound of a key starts at or before the
    key. *)
Lemma rb_reaches k lower b j g :
  files_sorted lower = true → is_rb k lower b →
  vec_at lower j = Some g → j ≤ b → key_le (smallest g) k.
Proof.
  intros Hs (Hb & _ & Hat) Hg Hjb.
  pose proof (vec_at_lt _ _ _ Hg) as Hj.
  destruct (vec_at_is_Some lower b) as [gb Hgb]; [lia|].
  pose proof (Hat gb Hgb) as Hk.
  destruct (decide (j = b)) as [->|Hne]; [by simplify_eq|].
  apply vec_at_Some in Hgb as [_ Hgb]. apply vec_at_Some in Hg as [_ Hg].
  eapply key_le_trans; [|exact Hk]. apply key_lt_le.
  eapply sorted_smallest_lt; [exact Hs|exact Hg|exact Hgb|lia].
Qed.

(** The two bounds of one key are at most one file apart. *)
Lemma rb_le_lb k lower a b :
  files_sorted lower = true → is_lb k lower a → is_rb k lower b → b ≤ a.
Proof.
  intros Hs Hlb Hrb.
  destruct (Z.le_gt_cases b a) as [|Hgt]; [done|exfalso].
  pose proof Hlb as (Ha & _ & Hat). pose proof Hrb as (Hb & _ & Hbt).
  destruct (vec_at_is_Some lower a) as [ga Hga]; [lia|].
  destruct (vec_at_is_Some lower b) as [gb Hgb]; [lia|].
  pose proof (Hat ga Hga) as H1. pose proof (Hbt gb Hgb) as H2.
  apply vec_at_Some in Hga as [_ Hga]. apply vec_at_Some in Hgb as [_ Hgb].
  assert (key_lt (largest ga) (smallest gb)) as H3
    by (eapply sorted_apart; [exact Hs|exact Hga|exact Hgb|lia]).
  assert (key_lt k k) as Hkk.
  { eapply key_le_lt_trans; [exact H1|].
    eapply key_lt_le_trans; [exact H3|exact H2]. }
  apply key_not_le in Hkk. apply Hkk, key_le_refl.
Qed.


(** X15.  After a build on sorted levels, for a key equal to the smallest
    or to the largest key of the file, the returned range is exactly the
    set of files of the next level that contain the key, and it holds at
    most one file. *)
Theorem resolve_exact_at_boundary fi files :
  build_ready fi files → levels_sorted files = true →
  ∃ fi', UpdateIndex default_unit fi (Some files) = Some fi' ∧
    ∀ u upper lower i f k,
      1 ≤ u ≤ num_levels_ fi - 2 →
      vec_at files u = Some upper → vec_at files (u + 1) = Some lower →
      vec_at upper i = Some f →
      Compare k (smallest f) = 0 ∨ Compare k (largest f) = 0 →
      ∃ lb rb,
        GetNextLevelIndex fi' u i (Z.sgn (Compare k (smallest f)))
          (Z.sgn (Compare k (largest f))) = Some (lb, rb) ∧
        rb ≤ lb ∧
        ∀ j g, vec_at lower j = Some g →
          (lb ≤ j ≤ rb ↔ key_le (smallest g) k ∧ key_le k (largest g)).
Proof.
  intros Hready Hs.
  destruct (build_ready_built default_unit fi files Hready)
    as (fi' & Hrun & Hbuilt).
  exists fi'. split; [done|]. intros u upper lower i f k Hu Hup Hlow Hf Hk.
  destruct (resolve_on_built fi files fi' u upper lower i f
              (Z.sgn (Compare k (smallest f))) (Z.sgn (Compare k (largest f)))
              Hready Hbuilt Hs Hu Hup Hlow Hf)
    as (h & hp & lb & rb & _ & Hslb & Hllb & Hsrb & Hlrb & _ & Hlb & Hrb
        & _ & Hres & _).
  pose proof (levels_sorted_at files u upper Hs ltac:(lia) Hup) as Hsu.
  pose proof (levels_sorted_at files (u + 1) lower Hs ltac:(lia) Hlow) as Hsl.
  apply vec_at_Some in Hf as [_ Hf].
  pose proof (sorted_file _ _ _ Hsu Hf) as Hfile.
  (* the key [e] of the file that [k] equals, and its two bounds *)
  assert (He : ∃ e, key_le k e ∧ key_le e k ∧
            is_lb e lower lb ∧ is_rb e lower rb).
  { destruct (Z.eqb_spec (Z.sgn (Compare k (smallest f))) 0) as [Hz|Hz].
    - exists (smallest f). destruct (Z.ltb_spec (Z.sgn (Compare k (smallest f))) 0);
        [lia|]. simpl in Hlb, Hrb. subst lb rb.
      split; [unfold key_le; lia|]. split; [apply compare_ge_le; lia|done].
    - destruct Hk as [Hk|Hk]; [rewrite Hk in Hz; done|].
      exists (largest f).
      assert (0 < Compare k (smallest f)) as Hpos.
      { destruct (Z.lt_trichotomy (Compare k (smallest f)) 0)
          as [Hlt|[Heq|Hgt]]; [exfalso|rewrite Heq in Hz; done|done].
        assert (key_lt k k) as Hkk.
        { eapply key_lt_le_trans; [exact Hlt|].
          eapply key_le_trans; [exact Hfile|]. apply compare_ge_le. lia. }
        apply key_not_le in Hkk. apply Hkk, key_le_refl. }
      destruct (Z.ltb_spec (Z.sgn (Compare k (smallest f))) 0); [lia|].
      rewrite Hk in Hlb, Hrb. simpl in Hlb, Hrb. subst lb rb.
      split; [unfold key_le; lia|]. split; [apply compare_ge_le; lia|done]. }
  destruct He as (e & Hke & Hek & Helb & Herb).
  exists lb, rb. split; [done|]. split; [by apply (rb_le_lb e lower)|].
  intros j g Hg. split.
  - intros [Hj1 Hj2]. split.
    + eapply key_le_trans; [|exact Hek]. by apply (rb_reaches e lower rb j).
    + eapply key_le_trans; [exact Hke|]. by apply (lb_reaches e lower lb j).
  - intros [Hlo Hhi]. split.
    + by apply (candidate_ge_lb e k lower lb j g).
    + by apply (candidate_le_rb k e lower rb j g).
Qed.
End Tight.


(** [resolve_exact_at_boundary] in the scenario: the file [[30,40]] and the
    key 40, contained in the file [[35,45]] at index 2. *)
Lemma resolve_exact_at_boundary_witness :
  ∃ fi' lb rb,
    UpdateIndex zero_unit (FileIndexer_new 3) (Some ex_files) = Some fi' ∧
    GetNextLevelIndex fi' 1 1 (Z.sgn (Compare 40 30)) (Z.sgn (Compare 40 40))
      = Some (lb, rb) ∧
    rb ≤ lb ∧ lb ≤ 2 ≤ rb.
Proof.
  destruct (@resolve_exact_at_boundary Z Z_Comparator Z_Compare_laws zero_unit
              (FileIndexer_new 3) ex_files ex_ready eq_refl)
    as (fi' & Hrun & Hall).
  destruct (Hall 1 [mkFile 10 20; mkFile 30 40]
              [mkFile 5 15; mkFile 18 25; mkFile 35 45] 1 (mkFile 30 40) 40
              ltac:(simpl; lia) eq_refl eq_refl eq_refl
              ltac:(right; reflexivity))
    as (lb & rb & Hres & Hone & Hin).
  exists fi', lb, rb. split; [exact Hrun|]. split; [exact Hres|].
  split; [exact Hone|].
  apply (Hin 2 (mkFile 35 45) eq_refl). split; by_compute.
Defined.
